(** * Advent of Code 2021, days 2 and 3: the submarine and the binary
      diagnostic report

    A shallow embedding of [src/day3.py] (classes [BitString] and
    [DiagnosticReport]) and of [src/day2.py] (classes [Submarine] and
    [AimSubmarine]), with the properties their description states.

    Python integers are [Z], Python strings are lists of characters, and a
    call that can raise returns a [result].  Assertions are executed, as
    they are unless the interpreter is told to optimise them away. *)

From Stdlib Require Import ZArith List Ascii String Bool Lia DecimalString.
From Stdlib Require Import Permutation Sorted DecimalPos DecimalZ.
Import ListNotations.
Local Open Scope char_scope.
Local Open Scope Z_scope.

(** ** Exceptions *)

Inductive exn : Type :=
| ValueError
| AssertionError
| IndexError.

Inductive result (A : Type) : Type :=
| Ok (a : A)
| Raise (e : exn).

Arguments Ok {A} a.
Arguments Raise {A} e.

Definition bind {A B : Type} (r : result A) (k : A -> result B) : result B :=
  match r with
  | Ok a => k a
  | Raise e => Raise e
  end.

Notation "x <- r ;; k" := (bind r (fun x => k))
  (at level 61, r at next level, right associativity).

(** A list comprehension [[f(x) for x in l]]: elements are evaluated from
    left to right and the first exception aborts the whole comprehension. *)
Fixpoint comprehension {A B : Type} (f : A -> result B) (l : list A)
  : result (list B) :=
  match l with
  | [] => Ok []
  | x :: t => y <- f x ;; ys <- comprehension f t ;; Ok (y :: ys)
  end.

(** ** The Python built-ins the programs use *)

Module Py.

(** A [str] is its sequence of characters.  Characters are 8-bit code points
    (Latin-1), among which the decimal digits are exactly ['0'] .. ['9'].
    Texts with other characters are outside this development: there [int]
    reads the other decimal digits of Unicode as well. *)
Definition str : Type := list ascii.

Definition lit (s : string) : str := list_ascii_of_string s.

Definition len {A : Type} (l : list A) : Z := Z.of_nat (List.length l).

(** [''.join(parts)] *)
Definition join (parts : list str) : str := List.concat parts.

(** [str(n)] for an integer: its decimal notation (the interpreter's limit
    on the number of digits of such a conversion is not modelled). *)
Definition str_int (n : Z) : str :=
  list_ascii_of_string (NilZero.string_of_int (Z.to_int n)).

(** [range(n)] *)
Definition range (n : Z) : list Z := map Z.of_nat (seq 0 (Z.to_nat n)).

(** [l[i]]: a negative index counts from the end, and an index outside
    [-len(l) .. len(l)-1] raises [IndexError]. *)
Definition getitem {A : Type} (l : list A) (i : Z) : result A :=
  let j := if i <? 0 then i + len l else i in
  if (0 <=? j) && (j <? len l) then
    match nth_error l (Z.to_nat j) with
    | Some x => Ok x
    | None => Raise IndexError
    end
  else Raise IndexError.

(** [sum(f(x) for x in l)]: the generator is consumed from left to right. *)
Fixpoint sum_gen {A : Type} (f : A -> result Z) (l : list A) (start : Z)
  : result Z :=
  match l with
  | [] => Ok start
  | x :: t => v <- f x ;; sum_gen f t (start + v)
  end.

(** *** [int(s, base)] *)

Definition code (c : ascii) : Z := Z.of_N (N_of_ascii c).

(** [str.isspace] on one Latin-1 character: what [str.strip] removes. *)
Definition isspace (c : ascii) : bool :=
  let n := code c in
  ((9 <=? n) && (n <=? 13)) || ((28 <=? n) && (n <=? 32))
  || (n =? 133) || (n =? 160).

(** The white space [int] skips around a number: as [isspace], but for the
    four separators 28 .. 31, which [int] does not skip. *)
Definition int_space (c : ascii) : bool :=
  let n := code c in
  ((9 <=? n) && (n <=? 13)) || (n =? 32) || (n =? 133) || (n =? 160).

Fixpoint lstrip (space : ascii -> bool) (s : str) : str :=
  match s with
  | c :: t => if space c then lstrip space t else s
  | [] => []
  end.

Definition rstrip (space : ascii -> bool) (s : str) : str :=
  rev (lstrip space (rev s)).

(** [s.strip()] is [strip isspace s]. *)
Definition strip (space : ascii -> bool) (s : str) : str :=
  rstrip space (lstrip space s).

(** [str.splitlines]: the line boundaries among the Latin-1 characters. *)
Definition linebreak (c : ascii) : bool :=
  let n := code c in
  ((10 <=? n) && (n <=? 13)) || ((28 <=? n) && (n <=? 30)) || (n =? 133).

(** [s.splitlines()]: a carriage return and the line feed after it are one
    boundary, and a boundary at the very end opens no further line.  [line]
    holds the characters of the current line, last one first. *)
Fixpoint splitlines_from (line : str) (s : str) : list str :=
  match s with
  | [] => match line with
          | [] => []
          | _ => [rev line]
          end
  | c :: t =>
      if linebreak c then
        rev line ::
        match t with
        | c' :: t' =>
            if Ascii.eqb c "013" && Ascii.eqb c' "010"
            then splitlines_from [] t'
            else splitlines_from [] t
        | [] => []
        end
      else splitlines_from (c :: line) t
  end.

Definition splitlines (s : str) : list str := splitlines_from [] s.

(** The value of a character as a digit: ['0'..'9'] are 0..9 and letters of
    either case are 10..35. *)
Definition digit_of (c : ascii) : option Z :=
  let n := code c in
  if (48 <=? n) && (n <=? 57) then Some (n - 48)
  else if (97 <=? n) && (n <=? 122) then Some (n - 87)
  else if (65 <=? n) && (n <=? 90) then Some (n - 55)
  else None.

(** The digits after the sign and the prefix: at least one digit, and single
    underscores only between two digits.  [after_digit] tells whether the
    previous character was a digit. *)
Fixpoint digits (base : Z) (acc : Z) (after_digit : bool) (s : str)
  : option Z :=
  match s with
  | [] => if after_digit then Some acc else None
  | c :: t =>
      if Ascii.eqb c "_" then
        if after_digit then digits base acc false t else None
      else
        match digit_of c with
        | Some d => if d <? base then digits base (acc * base + d) true t
                    else None
        | None => None
        end
  end.

Definition split_sign (s : str) : Z * str :=
  match s with
  | "+" :: t => (1, t)
  | "-" :: t => (-1, t)
  | _ => (1, s)
  end.

(** A base prefix ([0b], [0o], [0x], either case) is accepted when it names
    the base asked for, and one underscore may follow it. *)
Definition prefix_letter (base : Z) (c : ascii) : bool :=
  ((base =? 2) && (Ascii.eqb c "b" || Ascii.eqb c "B"))
  || ((base =? 8) && (Ascii.eqb c "o" || Ascii.eqb c "O"))
  || ((base =? 16) && (Ascii.eqb c "x" || Ascii.eqb c "X")).

Definition skip_prefix (base : Z) (s : str) : str :=
  match s with
  | "0" :: c :: t =>
      if prefix_letter base c then
        match t with
        | "_" :: t' => t'
        | _ => t
        end
      else s
  | _ => s
  end.

(** [sys.int_max_str_digits], as the interpreter sets it: the most digits
    [int] reads in a base that is not a power of two. *)
Definition int_max_str_digits : Z := 4300.

Definition power_of_two_base (base : Z) : bool :=
  (base =? 2) || (base =? 4) || (base =? 8) || (base =? 16) || (base =? 32).

(** The digits the limit counts: every digit written, leading zeros among
    them, and neither the underscores, the sign nor the white space. *)
Definition count_digits (number : str) : Z :=
  len (filter (fun c => negb (Ascii.eqb c "_")) number).

(** [int(s, base)] for [2 <= base <= 36]; [int(s)] is [int(s, 10)].  A
    number of more than [int_max_str_digits] digits is refused, with the
    same [ValueError], unless the base is a power of two. *)
Definition int (s : str) (base : Z) : result Z :=
  let (sign, body) := split_sign (strip int_space s) in
  let number := skip_prefix base body in
  match digits base 0 false number with
  | Some n =>
      if negb (power_of_two_base base)
         && (int_max_str_digits <? count_digits number)
      then Raise ValueError
      else Ok (sign * n)
  | None => Raise ValueError
  end.

(** *** [format(value, 'b')] and right alignment *)

(** Binary digits of a positive number, least significant first. *)
Fixpoint pos_bits (p : positive) : list ascii :=
  match p with
  | xH => ["1"]
  | xO q => "0" :: pos_bits q
  | xI q => "1" :: pos_bits q
  end.

(** [format(value, 'b')]: binary notation, with a minus sign when negative. *)
Definition bin (value : Z) : str :=
  match value with
  | Z0 => ["0"]
  | Zpos p => rev (pos_bits p)
  | Zneg p => "-" :: rev (pos_bits p)
  end.

(** [s.rjust(width, fill)]: what the format specification [fill>width] does
    to an already formatted value. *)
Definition rjust (s : str) (width : Z) (fill : ascii) : str :=
  repeat fill (Z.to_nat (width - len s)) ++ s.

(** *** Further built-ins: sums, zips, joins and splits *)

(** [sum(l)] for a list of integers: added from the left, starting at 0. *)
Definition sum (l : list Z) : Z := fold_left Z.add l 0.

(** [zip(a, b, c)]: as long as the shortest of the three ([zip(a, b)] is
    [combine a b]). *)
Fixpoint zip3 {A : Type} (a b c : list A) : list (A * A * A) :=
  match a, b, c with
  | x :: a', y :: b', z :: c' => (x, y, z) :: zip3 a' b' c'
  | _, _, _ => []
  end.

(** [sep.join(parts)] *)
Fixpoint join_with (sep : str) (parts : list str) : str :=
  match parts with
  | [] => []
  | [p] => p
  | p :: rest => p ++ sep ++ join_with sep rest
  end.

(** [s.split()]: the maximal runs of characters that are not white space.
    [word] holds the characters of the current run, last one first. *)
Fixpoint split_from (word : str) (s : str) : list str :=
  match s with
  | [] => match word with
          | [] => []
          | _ => [rev word]
          end
  | c :: t =>
      if isspace c then
        match word with
        | [] => split_from [] t
        | _ => rev word :: split_from [] t
        end
      else split_from (c :: word) t
  end.

Definition split (s : str) : list str := split_from [] s.

(** [s.upper()], character by character.  Three Latin-1 characters have an
    upper case that is not one Latin-1 character (the micro sign, the sharp
    s, which becomes [SS], and the y with diaeresis); they are kept as they
    are, so whether [s.upper()] is a given word of ASCII capitals without
    [SS] in it is read off this function exactly. *)
Definition upper_char (c : ascii) : ascii :=
  let n := code c in
  if ((97 <=? n) && (n <=? 122))
     || ((224 <=? n) && (n <=? 254) && negb (n =? 247))
  then ascii_of_N (Z.to_N (n - 32))
  else c.

Definition upper (s : str) : str := map upper_char s.

End Py.

(** ** [day3.py]: bit strings and the diagnostic report *)

Module Day3.
Import Py.

(** [class BitString]: the dataclass has the single field [bits]. *)
Record BitString : Type := mkBitString { bits : list Z }.

(** [BitString.__int__] *)
Definition __int__ (self : BitString) : result Z :=
  int (join (map str_int (bits self))) 2.

(** [BitString.__len__] *)
Definition __len__ (self : BitString) : Z := len (bits self).

(** [BitString.__repr__] *)
Definition __repr__ (self : BitString) : str :=
  join (map str_int (bits self)).

(** [BitString.get_bit]: the assertion guards the upper end only, and the
    list is then indexed as Python indexes it. *)
Definition get_bit (self : BitString) (position : Z) : result Z :=
  if position <? len (bits self) then getitem (bits self) position
  else Raise AssertionError.

(** [BitString.from_str]: [int(c)] on every character. *)
Definition from_str (s : str) : result BitString :=
  bs <- comprehension (fun c => int [c] 10) s ;;
  Ok (mkBitString bs).

(** [BitString.flip] *)
Definition flip (self : BitString) : result BitString :=
  let flipped_bits :=
    map (fun bit => if bit =? 0 then lit "1" else lit "0") (bits self) in
  from_str (join flipped_bits).

(** [BitString.int_repr]: the format specification [0>{length}b] has fill
    ['0'], alignment [>], and type [b]; the text of [length] supplies the
    optional sign field and the width, so that a negative [length] reads as
    the sign option [-] (the default one) followed by the width
    [abs(length)]. *)
Definition int_repr (value length : Z) : str :=
  rjust (bin value) (Z.abs length) "0".

(** [BitString.from_int] *)
Definition from_int (value length : Z) : result BitString :=
  let as_string := int_repr value length in
  from_str as_string.

(** [class DiagnosticReport]: the dataclass has the single field
    [records]. *)
Record DiagnosticReport : Type := mkDiagnosticReport
  { records : list BitString }.

(** [DiagnosticReport.bit_length] *)
Definition bit_length (self : DiagnosticReport) : result Z :=
  first <- getitem (records self) 0 ;;
  Ok (__len__ first).

(** The body of the loop of [gamma_rate] at position [i]: the character
    appended to [most_common_bits]. *)
Definition most_common_bit (self : DiagnosticReport) (i : Z) : result str :=
  ones <- sum_gen (fun record => get_bit record i) (records self) 0 ;;
  Ok (if len (records self) / 2 <? ones then lit "1" else lit "0").

(** [DiagnosticReport.gamma_rate] *)
Definition gamma_rate (self : DiagnosticReport) : result Z :=
  n <- bit_length self ;;
  most_common_bits <- comprehension (most_common_bit self) (range n) ;;
  let bitstring := join most_common_bits in
  b <- from_str bitstring ;;
  __int__ b.

(** [DiagnosticReport.epsilon_rate] *)
Definition epsilon_rate (self : DiagnosticReport) : result Z :=
  g <- gamma_rate self ;;
  n <- bit_length self ;;
  gamma_bitstring <- from_int g n ;;
  flipped <- flip gamma_bitstring ;;
  __int__ flipped.

(** [DiagnosticReport.power_consumption] *)
Definition power_consumption (self : DiagnosticReport) : result Z :=
  g <- gamma_rate self ;;
  e <- epsilon_rate self ;;
  Ok (g * e).

(** [parse_input] *)
Definition parse_input (input_string : str) : result (list BitString) :=
  let input_string := strip isspace input_string in
  comprehension (fun line => from_str (strip isspace line))
                (splitlines input_string).

(** The report of [solve_part1] and of the tests: [parse_input], then the
    constructor. *)
Definition report_of_input (input_string : str) : result DiagnosticReport :=
  rs <- parse_input input_string ;;
  Ok (mkDiagnosticReport rs).

(** The report built from the texts of its records, one [from_str] each. *)
Definition report_of (lines : list string) : result DiagnosticReport :=
  rs <- comprehension (fun line => from_str (lit line)) lines ;;
  Ok (mkDiagnosticReport rs).

Definition example_lines : list string :=
  ["00100"; "11110"; "10110"; "10111"; "10101"; "01111";
   "00111"; "11100"; "10000"; "11001"; "00010"; "01010"]%string.

(** [sample_input] of [test_example_part1]: a line feed, the twelve records
    on lines indented by eight spaces, and four spaces after the last line
    feed. *)
Definition sample_input : str :=
  join (map (fun record => "010" :: lit "        " ++ lit record)
            example_lines)
  ++ "010" :: lit "    ".

End Day3.

(** ** [day2.py]: the submarine *)

Module Day2.

(** [class InstructionType(Enum)] *)
Inductive InstructionType : Type :=
| FORWARD
| DOWN
| UP.

(** [class Instruction] *)
Record Instruction : Type := mkInstruction
  { instruction_type : InstructionType;
    value : Z }.

(** The interface the two submarine classes share: the attributes
    [calculate_norm] reads and the three handlers [__post_init__] looks up
    through [self], so that a subclass's overriding methods are the ones
    stored in [instruction_map]. *)
Class SubmarineClass (S : Type) : Type :=
  { position : S -> Z;
    depth : S -> Z;
    move_forward : S -> Z -> S;
    move_down : S -> Z -> S;
    move_up : S -> Z -> S }.

(** [class Submarine] *)
Record Submarine : Type := mkSubmarine
  { sub_position : Z;
    sub_depth : Z }.

#[export] Instance Submarine_class : SubmarineClass Submarine :=
  { position := sub_position;
    depth := sub_depth;
    move_forward self v :=
      mkSubmarine (sub_position self + v) (sub_depth self);
    move_down self v :=
      mkSubmarine (sub_position self) (sub_depth self + v);
    move_up self v :=
      mkSubmarine (sub_position self) (Z.max 0 (sub_depth self - v)) }.

(** [class AimSubmarine(Submarine)]: the same two fields and the attribute
    [aim], which every instance first reads from the class, where it is 0. *)
Record AimSubmarine : Type := mkAimSubmarine
  { aim_position : Z;
    aim_depth : Z;
    aim : Z }.

#[export] Instance AimSubmarine_class : SubmarineClass AimSubmarine :=
  { position := aim_position;
    depth := aim_depth;
    move_forward self v :=
      mkAimSubmarine (aim_position self + v)
                     (Z.max 0 (aim_depth self + aim self * v))
                     (aim self);
    move_down self v :=
      mkAimSubmarine (aim_position self) (aim_depth self) (aim self + v);
    move_up self v :=
      mkAimSubmarine (aim_position self) (aim_depth self) (aim self - v) }.

(** [Submarine()] and [AimSubmarine()] *)
Definition new_Submarine : Submarine := mkSubmarine 0 0.
Definition new_AimSubmarine : AimSubmarine := mkAimSubmarine 0 0 0.

Section Generic.
Context {S : Type} `{SubmarineClass S}.

(** [self.instruction_map], as [__post_init__] fills it. *)
Definition instruction_map (t : InstructionType) : S -> Z -> S :=
  match t with
  | FORWARD => move_forward
  | DOWN => move_down
  | UP => move_up
  end.

(** [Submarine.process_instruction] *)
Definition process_instruction (self : S) (instruction : Instruction) : S :=
  instruction_map (instruction_type instruction) self (value instruction).

(** [Submarine.calculate_norm] *)
Definition calculate_norm (self : S) : Z := position self * depth self.

(** The loop of [calculate_submarine_norm]: the submarine after the
    instructions have been processed in order. *)
Definition process_all (submarine : S) (instructions : list Instruction) : S :=
  fold_left process_instruction instructions submarine.

(** [calculate_submarine_norm] *)
Definition calculate_submarine_norm
  (submarine : S) (instructions : list Instruction) : Z :=
  calculate_norm (process_all submarine instructions).

End Generic.

(** The instructions of [test_example_part1] and [test_example_part2]. *)
Definition example_instructions : list Instruction :=
  [mkInstruction FORWARD 5; mkInstruction DOWN 5; mkInstruction FORWARD 8;
   mkInstruction UP 3; mkInstruction DOWN 8; mkInstruction FORWARD 2].

End Day2.

(** ** [day1.py]: the sonar sweep *)

Module Day1.
Import Py.

(** [parse_input] *)
Definition parse_input (input_string : str) : result (list Z) :=
  comprehension (fun value => int value 10) (splitlines input_string).

(** [count_increases]: [pair[1] > pair[0]] counts as 1 when true and as 0
    when false. *)
Definition count_increases (input_list : list Z) : Z :=
  let pairs := combine input_list (skipn 1 input_list) in
  sum (map (fun pair => Z.b2z (snd pair >? fst pair)) pairs).

(** [count_rolling_increases] *)
Definition count_rolling_increases (input_list : list Z) : Z :=
  let windows := zip3 input_list (skipn 1 input_list) (skipn 2 input_list) in
  let window_sums :=
    map (fun window => match window with (a, b, c) => sum [a; b; c] end)
        windows in
  count_increases window_sums.

(** The measurements of [test_example_part1] and [test_example_part2]. *)
Definition example_depths : list Z :=
  [199; 200; 208; 210; 200; 207; 240; 269; 260; 263].

End Day1.

(** ** [day2.py]: reading the instructions *)

Module Day2Input.
Import Py Day2.

(** What [parse_input] can raise: the exceptions of the built-ins, and the
    [KeyError] of a lookup by name in [InstructionType]. *)
Inductive parse_exn : Type :=
| KeyError
| Builtin (e : exn).

Definition parsed (A : Type) : Type := (parse_exn + A)%type.

(** [InstructionType[name]]: the member of that name, or [KeyError]. *)
Definition member (name : str) : parsed InstructionType :=
  if list_eq_dec ascii_dec name (lit "FORWARD") then inr FORWARD
  else if list_eq_dec ascii_dec name (lit "DOWN") then inr DOWN
  else if list_eq_dec ascii_dec name (lit "UP") then inr UP
  else inl KeyError.

(** One turn of the comprehension that builds [instructions]: the fields of
    the line are unpacked into two names, which takes exactly two fields;
    then the member is looked up, and then the value is read. *)
Definition instruction_of (pair : list str) : parsed Instruction :=
  match pair with
  | [instruction_string; value_string] =>
      match member (upper instruction_string) with
      | inl e => inl e
      | inr t =>
          match int value_string 10 with
          | Raise e => inl (Builtin e)
          | Ok v => inr (mkInstruction t v)
          end
      end
  | _ => inl (Builtin ValueError)
  end.

(** The comprehension over [pairs], from left to right. *)
Fixpoint instructions_of (pairs : list (list str)) : parsed (list Instruction) :=
  match pairs with
  | [] => inr []
  | fields :: rest =>
      match instruction_of fields with
      | inl e => inl e
      | inr i =>
          match instructions_of rest with
          | inl e => inl e
          | inr tail => inr (i :: tail)
          end
      end
  end.

(** [parse_input] *)
Definition parse_input (input_string : str) : parsed (list Instruction) :=
  let input_string := strip isspace input_string in
  let lines := splitlines input_string in
  let pairs := map split lines in
  instructions_of pairs.

(** [sample_input] of the two tests: a line feed, the six instructions on
    lines indented by eight spaces, and four spaces after the last line
    feed. *)
Definition sample_input : str :=
  join (map (fun line => "010" :: lit "        " ++ lit line)
          ["forward 5"; "down 5"; "forward 8"; "up 3"; "down 8";
           "forward 2"]%string)
  ++ "010" :: lit "    ".

End Day2Input.

(** * Vocabulary of the properties *)

Import Py Day3 Day2.

(** ** Binary digits *)

Definition is_bit (b : Z) : Prop := b = 0 \/ b = 1.

(** The character that prints a binary digit. *)
Definition bit_char (b : Z) : ascii := if b =? 0 then "0" else "1".

(** What [flip] does to one digit: 0 becomes 1, anything else becomes 0. *)
Definition flip_digit (b : Z) : Z := if b =? 0 then 1 else 0.

(** The unsigned value of a digit sequence, most significant digit first. *)
Definition unsigned_value (bs : list Z) : Z :=
  fold_left (fun acc b => acc * 2 + b) bs 0.

(** Binary digits of a positive number, least significant first. *)
Fixpoint pos_digits (p : positive) : list Z :=
  match p with
  | xH => [1]
  | xO q => 0 :: pos_digits q
  | xI q => 1 :: pos_digits q
  end.

(** Binary digits of a non-negative number, most significant first, without
    leading zeros (the single digit 0 for zero). *)
Definition binary_digits (v : Z) : list Z :=
  match v with
  | Zpos p => rev (pos_digits p)
  | _ => [0]
  end.

(** The binary digits of [value] with zeros in front up to [width]
    digits. *)
Definition padded_digits (value width : Z) : list Z :=
  repeat 0 (Z.to_nat (width - len (binary_digits value)))
  ++ binary_digits value.

(** ** Decimal digits *)

Definition decimal_digits : str := lit "0123456789".

(** The value of a decimal digit, by its code point. *)
Definition decimal_digit (c : ascii) : option Z :=
  if (48 <=? code c) && (code c <=? 57) then Some (code c - 48) else None.

(** ** Code points *)

(** The code points of the Latin-1 characters, which are the characters a
    [str] of this development holds. *)
Definition latin1 (n : Z) : Prop := 0 <= n <= 255.

(** [chr(n)] for a Latin-1 code point [n]. *)
Definition chr (n : Z) : ascii := ascii_of_N (Z.to_N n).

(** ** Reports *)

(** All the records of a report are made of binary digits. *)
Definition binary_records (rs : list BitString) : Prop :=
  Forall (fun r => Forall is_bit (bits r)) rs.

(** All the records of a report have [L] digits. *)
Definition records_of_length (L : nat) (rs : list BitString) : Prop :=
  Forall (fun r => List.length (bits r) = L) rs.

(** How many records have a 1 at position [i]. *)
Definition count_ones (rs : list BitString) (i : nat) : Z :=
  len (filter (fun r => nth i (bits r) 0 =? 1) rs).

(** The majority digit at position [i]: 1 when the count of ones is strictly
    greater than [floor(recordCount / 2)], else 0. *)
Definition majority_digit (rs : list BitString) (i : nat) : Z :=
  if len rs / 2 <? count_ones rs i then 1 else 0.

(** The majority bit string of records of [L] digits. *)
Definition majority_bits (rs : list BitString) (L : nat) : list Z :=
  map (majority_digit rs) (seq 0 L).

(** An independent tally of the least common digit at position [i], strict
    as the majority is: 1 when strictly fewer records have a 1 than have a
    0 there, else 0. *)
Definition least_common_digit (rs : list BitString) (i : nat) : Z :=
  if count_ones rs i <? len rs - count_ones rs i then 1 else 0.

Definition least_common_bits (rs : list BitString) (L : nat) : list Z :=
  map (least_common_digit rs) (seq 0 L).

(** The report of the two records ["10"] and ["01"]: an exact tie at both
    positions. *)
Definition tie_report : DiagnosticReport :=
  mkDiagnosticReport [mkBitString [1; 0]; mkBitString [0; 1]].

(** The report of [test_example_part1]. *)
Definition example_report : DiagnosticReport :=
  mkDiagnosticReport
    (map mkBitString
       [[0;0;1;0;0]; [1;1;1;1;0]; [1;0;1;1;0]; [1;0;1;1;1]; [1;0;1;0;1];
        [0;1;1;1;1]; [0;0;1;1;1]; [1;1;1;0;0]; [1;0;0;0;0]; [1;1;0;0;1];
        [0;0;0;1;0]; [0;1;0;1;0]]).

(** ** Instructions *)

Definition non_negative_value (i : Instruction) : Prop := 0 <= value i.

(** ** Tactics *)

(** Case analysis on a hypothesis [H : is_bit b]. *)
Ltac bit_cases H :=
  let E := fresh "E" in destruct H as [E | E]; rewrite E in *; clear E.

(** Closes [Forall is_bit] goals on explicit lists. *)
Ltac forall_bits :=
  repeat first [ apply Forall_nil | apply Forall_cons
               | left; reflexivity | right; reflexivity ].

(** * Further vocabulary *)

(** A decimal digit, as a number and as the character that prints it. *)
Definition is_decimal (d : Z) : Prop := 0 <= d <= 9.

Definition decimal_char (d : Z) : ascii := ascii_of_N (Z.to_N (48 + d)).

(** Case analysis on a hypothesis [H : is_decimal d]. *)
Ltac decimal_cases H d :=
  let E := fresh "E" in
  assert (E : d = 0 \/ d = 1 \/ d = 2 \/ d = 3 \/ d = 4 \/ d = 5 \/ d = 6
              \/ d = 7 \/ d = 8 \/ d = 9) by (unfold is_decimal in H; lia);
  clear H;
  repeat (destruct E as [E | E]; [rewrite E in * |]); try rewrite E in *.

(** A record cut down to its first [L] digits. *)
Definition truncate (L : nat) (r : BitString) : BitString :=
  mkBitString (firstn L (bits r)).

(** The line feed. *)
Definition LF : ascii := "010".

(** ** Instructions, further *)

Definition same_type (t t' : InstructionType) : bool :=
  match t, t' with
  | FORWARD, FORWARD | DOWN, DOWN | UP, UP => true
  | _, _ => false
  end.

(** The sum of the values of the instructions of type [t]. *)
Fixpoint total (t : InstructionType) (instructions : list Instruction) : Z :=
  match instructions with
  | [] => 0
  | i :: rest =>
      (if same_type t (instruction_type i) then value i else 0) + total t rest
  end.

(** ** Decimal notation *)

(** The characters of a decimal number of the standard library. *)
Definition uint_chars (d : Decimal.uint) : str :=
  list_ascii_of_string (NilEmpty.string_of_uint d).

(** The number of decimal digits of an integer: the length of the decimal
    notation of its absolute value. *)
Definition decimal_length (n : Z) : Z := len (str_int (Z.abs n)).

(** ** Measurements *)

(** How many measurements are greater than the one [k] places before. *)
Definition count_gaps (k : nat) (l : list Z) : Z :=
  sum (map (fun pair => Z.b2z (snd pair >? fst pair)) (combine l (skipn k l))).

(** ** Written instructions *)

(** The name of a member of [InstructionType]. *)
Definition member_name (t : InstructionType) : str :=
  match t with
  | FORWARD => lit "FORWARD"
  | DOWN => lit "DOWN"
  | UP => lit "UP"
  end.

(** A run of blanks inside a line: white space that is no line boundary. *)
Definition blanks (s : str) : Prop :=
  Forall (fun c => isspace c = true /\ linebreak c = false) s.

(** An instruction written on a line: a spelling [word] of its name, in any
    mix of cases, a non-empty run of blanks, and its value in decimal. *)
Definition written_line (w : str * str * Instruction) : str :=
  match w with
  | (word, gap, i) => word ++ gap ++ str_int (value i)
  end.

(** The spelling is one of the name, the gap is a non-empty run of blanks,
    and the value has no more digits than [int] reads. *)
Definition well_written (w : str * str * Instruction) : Prop :=
  match w with
  | (word, gap, i) =>
      upper word = member_name (instruction_type i)
      /\ gap <> [] /\ blanks gap
      /\ decimal_length (value i) <= int_max_str_digits
  end.

(** ** Lines and their padding *)

(** A line between two characters that are not white space, and without a
    line boundary in it. *)
Definition solid (s : str) : Prop :=
  (exists c t, s = c :: t /\ isspace c = false)
  /\ (exists u c, s = u ++ [c] /\ isspace c = false)
  /\ Forall (fun c => linebreak c = false) s.

(** A line that is [core] between two runs of blanks. *)
Definition padded (line core : str) : Prop :=
  exists pre post, blanks pre /\ blanks post /\ line = pre ++ core ++ post.

(** * Properties *)

(** ** Binary digits *)

Lemma is_bit_flip_digit (b : Z) : is_bit (flip_digit b).
Proof. unfold flip_digit, is_bit. destruct (b =? 0); auto. Qed.

Lemma flip_digit_involutive (b : Z) : is_bit b -> flip_digit (flip_digit b) = b.
Proof. intros [-> | ->]; reflexivity. Qed.

Lemma Forall_is_bit_flip (bs : list Z) : Forall is_bit (map flip_digit bs).
Proof. apply Forall_map, Forall_forall. intros; apply is_bit_flip_digit. Qed.

(** ** The built-ins on binary digits *)

Lemma comprehension_Ok {A B : Type}
  (f : A -> result B) (g : A -> B) (l : list A) :
  (forall x, In x l -> f x = Ok (g x)) ->
  comprehension f l = Ok (map g l).
Proof.
  induction l as [| x t IH]; intros Hf; simpl.
  - reflexivity.
  - rewrite (Hf x) by (left; reflexivity). simpl.
    rewrite IH by (intros y Hy; apply Hf; right; exact Hy).
    reflexivity.
Qed.

Lemma join_singletons {A : Type} (f : A -> ascii) (l : list A) :
  join (map (fun x => [f x]) l) = map f l.
Proof.
  unfold join. induction l as [| x t IH]; simpl; [| rewrite IH]; reflexivity.
Qed.

Lemma str_int_bit (b : Z) : is_bit b -> str_int b = [bit_char b].
Proof. intros [-> | ->]; reflexivity. Qed.

Lemma join_str_int_bits (bs : list Z) :
  Forall is_bit bs -> join (map str_int bs) = map bit_char bs.
Proof.
  unfold join. induction 1 as [| b t Hb _ IH]; simpl.
  - reflexivity.
  - rewrite (str_int_bit b Hb), IH. reflexivity.
Qed.

Lemma int_one_char (c : ascii) :
  int [c] 10 = match decimal_digit c with
               | Some d => Ok d
               | None => Raise ValueError
               end.
Proof. destruct c as [[] [] [] [] [] [] [] []]; vm_compute; reflexivity. Qed.

Lemma int_space_bit_char (b : Z) : int_space (bit_char b) = false.
Proof. unfold bit_char. destruct (b =? 0); reflexivity. Qed.

Lemma lstrip_no_space (space : ascii -> bool) (s : str) :
  Forall (fun c => space c = false) s -> lstrip space s = s.
Proof. destruct 1 as [| c t Hc _]; simpl; [| rewrite Hc]; reflexivity. Qed.

Lemma strip_no_space (space : ascii -> bool) (s : str) :
  Forall (fun c => space c = false) s -> strip space s = s.
Proof.
  intros Hs. unfold strip, rstrip.
  rewrite (lstrip_no_space space s Hs).
  rewrite lstrip_no_space by (apply Forall_rev; exact Hs).
  apply rev_involutive.
Qed.

Lemma strip_bit_chars (bs : list Z) :
  strip int_space (map bit_char bs) = map bit_char bs.
Proof.
  apply strip_no_space, Forall_map, Forall_forall.
  intros b _. apply int_space_bit_char.
Qed.

Lemma digits_bit_chars (bs : list Z) :
  Forall is_bit bs ->
  forall acc, digits 2 acc true (map bit_char bs)
              = Some (fold_left (fun a b => a * 2 + b) bs acc).
Proof.
  induction 1 as [| b t Hb _ IH]; intros acc; simpl.
  - reflexivity.
  - bit_cases Hb; simpl; apply IH.
Qed.

Lemma int_bit_chars (bs : list Z) :
  bs <> [] -> Forall is_bit bs ->
  int (map bit_char bs) 2 = Ok (unsigned_value bs).
Proof.
  intros Hne Hbs. unfold int. cbv zeta.
  change (negb (power_of_two_base 2)) with false. cbn [andb].
  rewrite strip_bit_chars.
  destruct bs as [| b t]; [contradiction |].
  inversion Hbs as [| ? ? Hb Ht]; subst.
  assert (Hsign : split_sign (map bit_char (b :: t)) = (1, map bit_char (b :: t)))
    by (bit_cases Hb; reflexivity).
  rewrite Hsign.
  assert (Hpre : skip_prefix 2 (map bit_char (b :: t)) = map bit_char (b :: t)).
  { bit_cases Hb; [| reflexivity].
    destruct t as [| b' t']; [reflexivity |].
    inversion Ht as [| ? ? Hb' _]; subst.
    bit_cases Hb'; reflexivity. }
  rewrite Hpre.
  assert (Hd : digits 2 0 false (map bit_char (b :: t))
               = digits 2 0 true (map bit_char (b :: t)))
    by (bit_cases Hb; reflexivity).
  rewrite Hd, (digits_bit_chars (b :: t) Hbs 0).
  unfold unsigned_value. f_equal. lia.
Qed.

Lemma int_empty : int [] 2 = Raise ValueError.
Proof. reflexivity. Qed.

(** ** [BitString] on binary digits *)

Lemma from_str_bit_chars (bs : list Z) :
  Forall is_bit bs -> from_str (map bit_char bs) = Ok (mkBitString bs).
Proof.
  intros Hbs. unfold from_str.
  rewrite (comprehension_Ok _ (fun c => code c - 48)).
  - simpl. rewrite map_map. f_equal. f_equal.
    rewrite <- (map_id bs) at 2. apply map_ext_in.
    intros b Hb. rewrite Forall_forall in Hbs.
    destruct (Hbs b Hb) as [-> | ->]; reflexivity.
  - intros c Hc. apply in_map_iff in Hc. destruct Hc as [b [<- Hb]].
    rewrite Forall_forall in Hbs.
    destruct (Hbs b Hb) as [-> | ->]; reflexivity.
Qed.

Lemma int_of_bits (bs : list Z) :
  bs <> [] -> Forall is_bit bs ->
  __int__ (mkBitString bs) = Ok (unsigned_value bs).
Proof.
  intros Hne Hbs. unfold __int__. simpl.
  rewrite (join_str_int_bits bs Hbs). apply int_bit_chars; assumption.
Qed.

Lemma int_of_no_bits : __int__ (mkBitString []) = Raise ValueError.
Proof. reflexivity. Qed.

Lemma repr_of_bits (bs : list Z) :
  Forall is_bit bs -> __repr__ (mkBitString bs) = map bit_char bs.
Proof. intros Hbs. unfold __repr__. simpl. apply join_str_int_bits, Hbs. Qed.

Lemma flip_bits (b : BitString) :
  flip b = Ok (mkBitString (map flip_digit (bits b))).
Proof.
  unfold flip.
  replace (join (map (fun bit => if bit =? 0 then lit "1" else lit "0") (bits b)))
    with (map bit_char (map flip_digit (bits b))).
  - apply from_str_bit_chars, Forall_is_bit_flip.
  - rewrite map_map.
    rewrite <- (join_singletons (fun x => bit_char (flip_digit x))).
    f_equal. apply map_ext. intros x. unfold flip_digit.
    destruct (x =? 0); reflexivity.
Qed.

(** ** Binary notation of a non-negative integer *)

Lemma pos_bits_digits (p : positive) : pos_bits p = map bit_char (pos_digits p).
Proof.
  induction p as [q IH | q IH |]; simpl; [rewrite IH | rewrite IH |];
    reflexivity.
Qed.

Lemma bin_binary_digits (v : Z) : 0 <= v -> bin v = map bit_char (binary_digits v).
Proof.
  destruct v as [| p | p]; intros Hv; simpl.
  - reflexivity.
  - rewrite pos_bits_digits, map_rev. reflexivity.
  - lia.
Qed.

Lemma Forall_is_bit_pos_digits (p : positive) : Forall is_bit (pos_digits p).
Proof.
  induction p as [q IH | q IH |]; simpl; repeat constructor;
    solve [exact IH | right; reflexivity | left; reflexivity].
Qed.

Lemma Forall_is_bit_binary_digits (v : Z) : Forall is_bit (binary_digits v).
Proof.
  destruct v as [| p | p]; simpl.
  - constructor; [left; reflexivity | constructor].
  - apply Forall_rev, Forall_is_bit_pos_digits.
  - constructor; [left; reflexivity | constructor].
Qed.

Lemma binary_digits_not_nil (v : Z) : binary_digits v <> [].
Proof.
  destruct v as [| p | p]; simpl; try discriminate.
  intros E. apply (f_equal (@List.length Z)) in E.
  rewrite length_rev in E. destruct p; discriminate.
Qed.

Lemma value_pos_digits (p : positive) :
  fold_right (fun b acc => acc * 2 + b) 0 (pos_digits p) = Zpos p.
Proof. induction p as [q IH | q IH |]; simpl; try rewrite IH; lia. Qed.

Lemma unsigned_value_binary_digits (v : Z) :
  0 <= v -> unsigned_value (binary_digits v) = v.
Proof.
  destruct v as [| p | p]; intros Hv; simpl; [reflexivity | | lia].
  unfold unsigned_value.
  rewrite <- (fold_left_rev_right (fun b acc => acc * 2 + b)).
  rewrite rev_involutive. apply value_pos_digits.
Qed.

(** The value of a digit sequence read after a prefix of value [acc]. *)
Lemma fold_left_value (bs : list Z) (acc : Z) :
  fold_left (fun a b => a * 2 + b) bs acc
  = acc * 2 ^ len bs + unsigned_value bs.
Proof.
  unfold unsigned_value, len. revert acc.
  induction bs as [| b t IH]; intros acc.
  - simpl. lia.
  - cbn [fold_left List.length]. rewrite (IH (acc * 2 + b)), (IH (0 * 2 + b)).
    rewrite Nat2Z.inj_succ, Z.pow_succ_r by lia. ring.
Qed.

Lemma unsigned_value_cons (b : Z) (t : list Z) :
  unsigned_value (b :: t) = b * 2 ^ len t + unsigned_value t.
Proof.
  unfold unsigned_value at 1. cbn [fold_left].
  rewrite fold_left_value. ring.
Qed.

Lemma unsigned_value_bounds (bs : list Z) :
  Forall is_bit bs -> 0 <= unsigned_value bs < 2 ^ len bs.
Proof.
  induction 1 as [| b t Hb _ IH].
  - cbn. lia.
  - rewrite unsigned_value_cons.
    replace (len (b :: t)) with (Z.succ (len t))
      by (unfold len; cbn [List.length]; lia).
    rewrite Z.pow_succ_r by (unfold len; lia).
    destruct Hb as [-> | ->]; lia.
Qed.

Lemma unsigned_value_leading_zeros (k : nat) (bs : list Z) :
  unsigned_value (repeat 0 k ++ bs) = unsigned_value bs.
Proof.
  unfold unsigned_value. rewrite fold_left_app.
  replace (fold_left (fun acc b => acc * 2 + b) (repeat 0 k) 0) with 0;
    [reflexivity |].
  induction k as [| k IH]; simpl; [reflexivity | exact IH].
Qed.

(** Two digit sequences of one length and one value are the same. *)
Lemma unsigned_value_inj (a : list Z) :
  Forall is_bit a ->
  forall b, Forall is_bit b -> List.length a = List.length b ->
  unsigned_value a = unsigned_value b -> a = b.
Proof.
  induction 1 as [| x a' Hx Ha' IH]; intros b Hb Hlen Hval.
  - destruct b; [reflexivity | discriminate].
  - destruct b as [| y b']; [discriminate |].
    inversion Hb as [| ? ? Hy Hb']; subst.
    injection Hlen as Hlen.
    rewrite !unsigned_value_cons in Hval.
    assert (Hl : len a' = len b') by (unfold len; lia).
    rewrite Hl in Hval.
    pose proof (unsigned_value_bounds a' Ha') as Ba.
    pose proof (unsigned_value_bounds b' Hb') as Bb.
    rewrite Hl in Ba.
    assert (x = y /\ unsigned_value a' = unsigned_value b') as [-> Hv]
      by (destruct Hx as [-> | ->], Hy as [-> | ->]; lia).
    f_equal. apply IH; assumption.
Qed.

Lemma len_pos_digits (p : positive) :
  2 ^ (len (pos_digits p) - 1) <= Zpos p.
Proof.
  unfold len. induction p as [q IH | q IH |]; cbn [pos_digits List.length].
  1, 2: rewrite Nat2Z.inj_succ;
        replace (Z.succ (Z.of_nat (List.length (pos_digits q))) - 1)
          with (Z.succ (Z.of_nat (List.length (pos_digits q)) - 1)) by lia;
        assert (0 < Z.of_nat (List.length (pos_digits q)))
          by (destruct q; cbn; lia);
        rewrite Z.pow_succ_r by lia; lia.
  cbn. lia.
Qed.

(** A number below [2 ^ n] has at most [n] binary digits. *)
Lemma len_binary_digits (v n : Z) :
  0 <= v < 2 ^ n -> 1 <= n -> len (binary_digits v) <= n.
Proof.
  intros [Hv Hlt] Hn. destruct v as [| p | p]; [cbn; lia | | lia].
  simpl. unfold len. rewrite length_rev.
  pose proof (len_pos_digits p) as Hp. unfold len in Hp.
  destruct (Z_le_gt_dec (Z.of_nat (List.length (pos_digits p))) n) as [Hle | Hgt];
    [exact Hle | exfalso].
  assert (2 ^ n <= 2 ^ (Z.of_nat (List.length (pos_digits p)) - 1))
    by (apply Z.pow_le_mono_r; lia).
  lia.
Qed.

(** A number that is at least [2 ^ n] has more than [n] binary digits. *)
Lemma len_binary_digits_overflow (v n : Z) :
  0 <= n -> 2 ^ n <= v -> n < len (binary_digits v).
Proof.
  intros Hn Hv.
  assert (0 <= v) by (pose proof (Z.pow_pos_nonneg 2 n); lia).
  pose proof (unsigned_value_bounds _ (Forall_is_bit_binary_digits v)) as B.
  rewrite unsigned_value_binary_digits in B by assumption.
  destruct (Z_lt_le_dec n (len (binary_digits v))) as [Hlt | Hle];
    [exact Hlt | exfalso].
  assert (2 ^ len (binary_digits v) <= 2 ^ n)
    by (apply Z.pow_le_mono_r; unfold len in *; lia).
  lia.
Qed.

(** ** [int_repr] and [from_int] on non-negative integers *)

Lemma int_repr_nonneg (value length : Z) :
  0 <= value ->
  int_repr value length = map bit_char (padded_digits value (Z.abs length)).
Proof.
  intros Hv. unfold int_repr, rjust, padded_digits.
  rewrite (bin_binary_digits value Hv), map_app, map_repeat.
  unfold len. rewrite length_map. reflexivity.
Qed.

Lemma Forall_is_bit_padded (value width : Z) :
  Forall is_bit (padded_digits value width).
Proof.
  unfold padded_digits. apply Forall_app. split.
  - apply Forall_forall. intros x Hx. apply repeat_spec in Hx. left; exact Hx.
  - apply Forall_is_bit_binary_digits.
Qed.

Lemma padded_digits_not_nil (value width : Z) : padded_digits value width <> [].
Proof.
  unfold padded_digits. intros E. apply app_eq_nil in E.
  destruct E as [_ E]. exact (binary_digits_not_nil value E).
Qed.

Lemma len_padded_digits (value width : Z) :
  len (padded_digits value width) = Z.max width (len (binary_digits value)).
Proof.
  unfold padded_digits, len. rewrite length_app, repeat_length. lia.
Qed.

Lemma unsigned_value_padded (value width : Z) :
  0 <= value -> unsigned_value (padded_digits value width) = value.
Proof.
  intros Hv. unfold padded_digits.
  rewrite unsigned_value_leading_zeros. apply unsigned_value_binary_digits, Hv.
Qed.

Lemma from_int_nonneg (value length : Z) :
  0 <= value ->
  from_int value length
  = Ok (mkBitString (padded_digits value (Z.abs length))).
Proof.
  intros Hv. unfold from_int. rewrite (int_repr_nonneg value length Hv).
  apply from_str_bit_chars, Forall_is_bit_padded.
Qed.

(** Re-encoding the value of a digit sequence at its own length gives the
    sequence back. *)
Lemma from_int_unsigned_value (bs : list Z) :
  bs <> [] -> Forall is_bit bs ->
  from_int (unsigned_value bs) (len bs) = Ok (mkBitString bs).
Proof.
  intros Hne Hbs.
  pose proof (unsigned_value_bounds bs Hbs) as B.
  assert (Hlen : 1 <= len bs) by (destruct bs; [contradiction | unfold len; cbn; lia]).
  rewrite from_int_nonneg by lia. f_equal. f_equal.
  rewrite Z.abs_eq by lia.
  apply unsigned_value_inj.
  - apply Forall_is_bit_padded.
  - exact Hbs.
  - apply Nat2Z.inj. fold (len (padded_digits (unsigned_value bs) (len bs))).
    fold (len bs). rewrite len_padded_digits.
    pose proof (len_binary_digits (unsigned_value bs) (len bs) B Hlen). lia.
  - apply unsigned_value_padded. lia.
Qed.

(** ** The majority digits of a report, as the description words them *)

Lemma is_bit_majority_digit (rs : list BitString) (i : nat) :
  is_bit (majority_digit rs i).
Proof. unfold majority_digit, is_bit. destruct (_ <? _); auto. Qed.

Lemma Forall_is_bit_majority (rs : list BitString) (L : nat) :
  Forall is_bit (majority_bits rs L).
Proof. apply Forall_map, Forall_forall. intros; apply is_bit_majority_digit. Qed.

Lemma length_majority_bits (rs : list BitString) (L : nat) :
  List.length (majority_bits rs L) = L.
Proof. unfold majority_bits. rewrite length_map. apply length_seq. Qed.

Lemma len_majority_bits (rs : list BitString) (L : nat) :
  len (majority_bits rs L) = Z.of_nat L.
Proof. unfold len. rewrite length_majority_bits. reflexivity. Qed.

Lemma majority_bits_not_nil (rs : list BitString) (L : nat) :
  (1 <= L)%nat -> majority_bits rs L <> [].
Proof.
  intros HL E. apply (f_equal (@List.length Z)) in E.
  rewrite length_majority_bits in E. simpl in E. lia.
Qed.

(** ** [get_bit] *)

Lemma getitem_in_range {A : Type} (l : list A) (d : A) (i : Z) :
  0 <= i < len l -> getitem l i = Ok (nth (Z.to_nat i) l d).
Proof.
  intros [H0 Hlt]. unfold getitem.
  destruct (Z.ltb_spec i 0) as [Hneg | _]; [lia |].
  destruct (Z.leb_spec 0 i) as [_ | Hneg]; [| lia].
  destruct (Z.ltb_spec i (len l)) as [_ | Hge]; [| lia].
  cbn [andb].
  assert (Hn : (Z.to_nat i < List.length l)%nat) by (unfold len in Hlt; lia).
  rewrite (nth_error_nth' l d Hn). reflexivity.
Qed.

Lemma get_bit_in_range (b : BitString) (p : Z) :
  0 <= p < __len__ b -> get_bit b p = Ok (nth (Z.to_nat p) (bits b) 0).
Proof.
  unfold __len__. intros Hp. unfold get_bit.
  destruct (Z.ltb_spec p (len (bits b))) as [_ | Hge]; [| lia].
  apply getitem_in_range, Hp.
Qed.

Lemma get_bit_out_of_range (b : BitString) (p : Z) :
  __len__ b <= p -> get_bit b p = Raise AssertionError.
Proof.
  unfold __len__. intros Hp. unfold get_bit.
  destruct (Z.ltb_spec p (len (bits b))) as [Hlt | _]; [lia | reflexivity].
Qed.

(** ** [gamma_rate], step by step *)

Section Report.
Variable rs : list BitString.
Variable L : nat.
Hypothesis rs_not_nil : rs <> [].
Hypothesis rs_length : records_of_length L rs.
Hypothesis rs_binary : binary_records rs.

Let self : DiagnosticReport := mkDiagnosticReport rs.

Lemma bit_length_report : bit_length self = Ok (Z.of_nat L).
Proof.
  unfold bit_length, self. simpl.
  destruct rs as [| r t]; [contradiction |].
  inversion rs_length as [| ? ? Hr _]; subst.
  reflexivity.
Qed.

Lemma sum_ones (i : nat) :
  (i < L)%nat ->
  forall (t : list BitString) (start : Z),
    records_of_length L t -> binary_records t ->
    sum_gen (fun record => get_bit record (Z.of_nat i)) t start
    = Ok (start + count_ones t i).
Proof.
  intros Hi t. induction t as [| r t IH]; intros start Hlen Hbin.
  - cbn. f_equal. lia.
  - inversion Hlen as [| ? ? Hr Ht]; subst.
    inversion Hbin as [| ? ? Br Bt]; subst.
    cbn [sum_gen].
    rewrite get_bit_in_range by (unfold __len__, len; lia).
    rewrite Nat2Z.id. cbn [bind]. rewrite (IH _ Ht Bt). f_equal.
    assert (Hb : is_bit (nth i (bits r) 0)).
    { rewrite Forall_forall in Br. apply Br, nth_In. lia. }
    unfold count_ones, len. cbn [filter].
    destruct Hb as [-> | ->]; cbn [Z.eqb Pos.eqb List.length]; lia.
Qed.

Lemma most_common_bit_report (i : nat) :
  (i < L)%nat ->
  most_common_bit self (Z.of_nat i) = Ok [bit_char (majority_digit rs i)].
Proof.
  intros Hi. unfold most_common_bit, self. cbn [records].
  rewrite (sum_ones i Hi rs 0 rs_length rs_binary). cbn [bind].
  unfold majority_digit. rewrite Z.add_0_l.
  destruct (_ <? _); reflexivity.
Qed.

Lemma most_common_bits_report :
  comprehension (most_common_bit self) (range (Z.of_nat L))
  = Ok (map (fun i => [bit_char (majority_digit rs i)]) (seq 0 L)).
Proof.
  unfold range. rewrite Nat2Z.id.
  rewrite (comprehension_Ok _
             (fun z => [bit_char (majority_digit rs (Z.to_nat z))])).
  - rewrite map_map. f_equal. apply map_ext. intros i.
    rewrite Nat2Z.id. reflexivity.
  - intros z Hz. apply in_map_iff in Hz. destruct Hz as [i [<- Hi]].
    apply in_seq in Hi. rewrite Nat2Z.id.
    apply most_common_bit_report. lia.
Qed.

(** [gamma_rate] reads the majority bit string as an integer. *)
Lemma gamma_rate_report :
  gamma_rate self = __int__ (mkBitString (majority_bits rs L)).
Proof.
  unfold gamma_rate. rewrite bit_length_report. cbn [bind].
  rewrite most_common_bits_report. cbn [bind].
  rewrite (join_singletons (fun i => bit_char (majority_digit rs i))).
  rewrite <- (map_map (majority_digit rs) bit_char).
  fold (majority_bits rs L).
  rewrite (from_str_bit_chars _ (Forall_is_bit_majority rs L)).
  reflexivity.
Qed.

Lemma gamma_rate_value :
  (1 <= L)%nat ->
  gamma_rate self = Ok (unsigned_value (majority_bits rs L)).
Proof.
  intros HL. rewrite gamma_rate_report.
  apply int_of_bits;
    [apply majority_bits_not_nil, HL | apply Forall_is_bit_majority].
Qed.

(** [epsilon_rate] flips the majority bit string and reads the result. *)
Lemma epsilon_rate_report :
  epsilon_rate self
  = (flipped <- flip (mkBitString (majority_bits rs L)) ;; __int__ flipped).
Proof.
  unfold epsilon_rate. destruct (Nat.eq_dec L 0) as [E0 | HL].
  - rewrite gamma_rate_report.
    replace (majority_bits rs L) with (@nil Z)
      by (unfold majority_bits; rewrite E0; reflexivity).
    reflexivity.
  - rewrite gamma_rate_value by lia. cbn [bind].
    rewrite bit_length_report. cbn [bind].
    rewrite <- len_majority_bits with (rs := rs).
    rewrite from_int_unsigned_value;
      [reflexivity | apply majority_bits_not_nil; lia
       | apply Forall_is_bit_majority].
Qed.

Lemma epsilon_rate_value :
  (1 <= L)%nat ->
  epsilon_rate self
  = Ok (unsigned_value (map flip_digit (majority_bits rs L))).
Proof.
  intros HL. rewrite epsilon_rate_report, flip_bits. cbn [bind bits].
  apply int_of_bits; [| apply Forall_is_bit_flip].
  intros E. apply map_eq_nil in E.
  exact (majority_bits_not_nil rs L HL E).
Qed.

End Report.

(** The value of a digit sequence and of its complement add up to all
    ones. *)
Lemma unsigned_value_flip (bs : list Z) :
  Forall is_bit bs ->
  unsigned_value bs + unsigned_value (map flip_digit bs) = 2 ^ len bs - 1.
Proof.
  induction 1 as [| b t Hb _ IH].
  - reflexivity.
  - cbn [map]. rewrite !unsigned_value_cons.
    replace (len (map flip_digit t)) with (len t)
      by (unfold len; rewrite length_map; reflexivity).
    replace (len (b :: t)) with (Z.succ (len t))
      by (unfold len; cbn [List.length]; lia).
    rewrite Z.pow_succ_r by (unfold len; lia).
    destruct Hb as [-> | ->]; cbn [flip_digit Z.eqb]; lia.
Qed.

(** Where no position is an exact tie, the independent tally of the least
    common digits is the complement of the majority bit string. *)
Lemma least_common_without_ties (rs : list BitString) (L : nat) :
  (forall i : nat, (i < L)%nat -> 2 * count_ones rs i <> len rs) ->
  least_common_bits rs L = map flip_digit (majority_bits rs L).
Proof.
  intros Hties. unfold least_common_bits, majority_bits.
  rewrite map_map. apply map_ext_in. intros i Hi. apply in_seq in Hi.
  assert (Hi' : (i < L)%nat) by lia.
  pose proof (Hties i Hi') as Hi2.
  unfold least_common_digit, majority_digit.
  destruct (Z.ltb_spec (count_ones rs i) (len rs - count_ones rs i));
    destruct (Z.ltb_spec (len rs / 2) (count_ones rs i));
    cbn; try reflexivity; exfalso; Z.div_mod_to_equations; lia.
Qed.

(** With records of no digits at all there is no digit to read: the majority
    bit string is empty and [int] refuses the empty text. *)
Lemma gamma_rate_no_digits (rs : list BitString) :
  rs <> [] -> records_of_length 0 rs -> binary_records rs ->
  gamma_rate (mkDiagnosticReport rs) = Raise ValueError.
Proof.
  intros Hne Hlen Hbin. rewrite (gamma_rate_report rs 0 Hne Hlen Hbin).
  reflexivity.
Qed.

(** * The claims about [day3.py] *)

Lemma tie_report_well_formed :
  records tie_report <> []
  /\ records_of_length 2 (records tie_report)
  /\ binary_records (records tie_report).
Proof.
  split; [discriminate | split].
  - repeat constructor.
  - unfold binary_records. cbn. forall_bits.
Qed.

Lemma example_report_well_formed :
  records example_report <> []
  /\ records_of_length 5 (records example_report)
  /\ binary_records (records example_report).
Proof.
  split; [discriminate | split].
  - repeat constructor.
  - unfold binary_records. cbn. forall_bits.
Qed.

(** C1. For a report of a non-empty collection of records of one length [L]
    made of binary digits, [gamma_rate] is the integer value of the bit
    string whose digit at each position [i] in [0 .. L-1] is 1 when the number
    of records with a 1 at [i] is strictly greater than
    [floor(recordCount / 2)] and 0 otherwise: it is what [__int__] returns on
    that bit string, which for [L >= 1] is its unsigned value.  For the two
    records ["10"] and ["01"] the gamma rate is 0, the epsilon rate is 3 and
    the power consumption is 0. *)
Theorem gamma_rate_is_majority_value :
  (forall (rs : list BitString) (L : nat),
      rs <> [] -> records_of_length L rs -> binary_records rs ->
      gamma_rate (mkDiagnosticReport rs)
      = __int__ (mkBitString (majority_bits rs L))
      /\ ((1 <= L)%nat ->
          gamma_rate (mkDiagnosticReport rs)
          = Ok (unsigned_value (majority_bits rs L))))
  /\ report_of ["10"; "01"]%string = Ok tie_report
  /\ majority_bits (records tie_report) 2 = [0; 0]
  /\ gamma_rate tie_report = Ok 0
  /\ epsilon_rate tie_report = Ok 3
  /\ power_consumption tie_report = Ok 0.
Proof.
  split; [| repeat split; reflexivity].
  intros rs L Hne Hlen Hbin. split.
  - apply gamma_rate_report; assumption.
  - intros HL. apply gamma_rate_value; assumption.
Qed.

Lemma gamma_rate_is_majority_value_witness :
  (records example_report <> []
   /\ records_of_length 5 (records example_report)
   /\ binary_records (records example_report)
   /\ (1 <= 5)%nat)
  /\ gamma_rate example_report
     = Ok (unsigned_value (majority_bits (records example_report) 5))
  /\ unsigned_value (majority_bits (records example_report) 5) = 22.
Proof.
  destruct example_report_well_formed as [Hne [Hlen Hbin]].
  split; [repeat split; try assumption; lia |].
  split; [| reflexivity].
  apply (proj1 gamma_rate_is_majority_value (records example_report) 5%nat);
    try assumption; lia.
Defined.

(** C2. For such a report [epsilon_rate] is the integer value of the
    complement of the majority bit string: the gamma rate, written again as
    a bit string of the report's bit length (which gives the majority bit
    string back), has every digit flipped and is read as an integer.  It is
    not an independent tally of the least common digit: the two agree where
    no position is an exact tie, but on the tie of ["10"] and ["01"] the
    epsilon rate is 3, the value of 11, where such a tally gives 00. *)
Theorem epsilon_rate_is_complement :
  (forall (rs : list BitString) (L : nat),
      rs <> [] -> records_of_length L rs -> binary_records rs ->
      epsilon_rate (mkDiagnosticReport rs)
      = (flipped <- flip (mkBitString (majority_bits rs L)) ;; __int__ flipped)
      /\ ((1 <= L)%nat ->
          from_int (unsigned_value (majority_bits rs L)) (Z.of_nat L)
          = Ok (mkBitString (majority_bits rs L))
          /\ flip (mkBitString (majority_bits rs L))
             = Ok (mkBitString (map flip_digit (majority_bits rs L)))
          /\ epsilon_rate (mkDiagnosticReport rs)
             = Ok (unsigned_value (map flip_digit (majority_bits rs L))))
      /\ ((forall i : nat, (i < L)%nat -> 2 * count_ones rs i <> len rs) ->
          least_common_bits rs L = map flip_digit (majority_bits rs L)))
  /\ epsilon_rate tie_report = Ok 3
  /\ map flip_digit (majority_bits (records tie_report) 2) = [1; 1]
  /\ least_common_bits (records tie_report) 2 = [0; 0].
Proof.
  split; [| repeat split; reflexivity].
  intros rs L Hne Hlen Hbin. split; [| split].
  - apply epsilon_rate_report; assumption.
  - intros HL. split; [| split].
    + rewrite <- (len_majority_bits rs L).
      apply from_int_unsigned_value;
        [apply majority_bits_not_nil, HL | apply Forall_is_bit_majority].
    + apply flip_bits.
    + apply epsilon_rate_value; assumption.
  - apply least_common_without_ties.
Qed.

Lemma epsilon_rate_is_complement_witness :
  (records example_report <> []
   /\ records_of_length 5 (records example_report)
   /\ binary_records (records example_report)
   /\ (1 <= 5)%nat)
  /\ epsilon_rate example_report
     = Ok (unsigned_value
             (map flip_digit (majority_bits (records example_report) 5)))
  /\ map flip_digit (majority_bits (records example_report) 5)
     = [0; 1; 0; 0; 1].
Proof.
  destruct example_report_well_formed as [Hne [Hlen Hbin]].
  split; [repeat split; try assumption; lia |].
  split; [| reflexivity].
  apply (proj1 (proj2 (proj1 epsilon_rate_is_complement
                         (records example_report) 5%nat Hne Hlen Hbin))).
  lia.
Defined.

(** C3. On the twelve records of five digits of the example, the gamma rate
    is 22 (the majority bit string is 10110), the epsilon rate is 9 (01001),
    and the power consumption, which is the product of the gamma rate and
    the epsilon rate, is 198. *)
Theorem example_power_consumption :
  report_of_input sample_input = Ok example_report
  /\ report_of example_lines = Ok example_report
  /\ majority_bits (records example_report) 5 = [1; 0; 1; 1; 0]
  /\ gamma_rate example_report = Ok 22
  /\ epsilon_rate example_report = Ok 9
  /\ power_consumption example_report = Ok 198
  /\ (forall self : DiagnosticReport,
         power_consumption self
         = (g <- gamma_rate self ;; e <- epsilon_rate self ;; Ok (g * e))).
Proof. repeat split; reflexivity. Qed.

(** C10. For a report of a non-empty collection of records of one length
    [L >= 1] made of binary digits, the gamma rate and the epsilon rate add
    up to [2 ^ L - 1], and the power consumption is
    [gamma * (2 ^ L - 1 - gamma)]. *)
Theorem gamma_epsilon_complementary (rs : list BitString) (L : nat) :
  rs <> [] -> (1 <= L)%nat -> records_of_length L rs -> binary_records rs ->
  exists g e : Z,
    gamma_rate (mkDiagnosticReport rs) = Ok g
    /\ epsilon_rate (mkDiagnosticReport rs) = Ok e
    /\ g + e = 2 ^ Z.of_nat L - 1
    /\ power_consumption (mkDiagnosticReport rs)
       = Ok (g * (2 ^ Z.of_nat L - 1 - g)).
Proof.
  intros Hne HL Hlen Hbin.
  pose proof (gamma_rate_value rs L Hne Hlen Hbin HL) as Hg.
  pose proof (epsilon_rate_value rs L Hne Hlen Hbin HL) as He.
  pose proof (unsigned_value_flip _ (Forall_is_bit_majority rs L)) as Hsum.
  rewrite len_majority_bits in Hsum.
  exists (unsigned_value (majority_bits rs L)),
         (unsigned_value (map flip_digit (majority_bits rs L))).
  repeat split; try assumption.
  unfold power_consumption. rewrite Hg, He. cbn [bind]. f_equal.
  f_equal. lia.
Qed.

Lemma gamma_epsilon_complementary_witness :
  (records example_report <> []
   /\ (1 <= 5)%nat
   /\ records_of_length 5 (records example_report)
   /\ binary_records (records example_report))
  /\ exists g e : Z,
      gamma_rate example_report = Ok g
      /\ epsilon_rate example_report = Ok e
      /\ g + e = 2 ^ Z.of_nat 5 - 1
      /\ power_consumption example_report
         = Ok (g * (2 ^ Z.of_nat 5 - 1 - g)).
Proof.
  destruct example_report_well_formed as [Hne [Hlen Hbin]].
  split; [repeat split; try assumption; lia |].
  apply (gamma_epsilon_complementary (records example_report) 5%nat);
    try assumption; lia.
Defined.

(** C4. Round trip: for a non-negative [v] and a positive length [n] with
    [v < 2 ^ n], [from_int v n] succeeds with a bit string of [n] digits on
    which [__int__] returns [v]. *)
Theorem from_int_round_trip (v n : Z) :
  0 <= v -> 1 <= n -> v < 2 ^ n ->
  (b <- from_int v n ;; __int__ b) = Ok v
  /\ exists b : BitString,
      from_int v n = Ok b /\ __len__ b = n /\ __int__ b = Ok v.
Proof.
  intros Hv Hn Hlt.
  assert (Hint : __int__ (mkBitString (padded_digits v (Z.abs n))) = Ok v).
  { rewrite int_of_bits
      by (apply padded_digits_not_nil || apply Forall_is_bit_padded).
    rewrite unsigned_value_padded by exact Hv. reflexivity. }
  rewrite (from_int_nonneg v n Hv). cbn [bind]. split; [exact Hint |].
  exists (mkBitString (padded_digits v (Z.abs n))).
  split; [reflexivity | split; [| exact Hint]].
  unfold __len__. cbn [bits]. rewrite len_padded_digits, Z.abs_eq by lia.
  pose proof (len_binary_digits v n (conj Hv Hlt) Hn). lia.
Qed.

Lemma from_int_round_trip_witness :
  (0 <= 22 /\ 1 <= 5 /\ 22 < 2 ^ 5)
  /\ (b <- from_int 22 5 ;; __int__ b) = Ok 22.
Proof.
  split; [lia |].
  apply (from_int_round_trip 22 5); [lia | lia | reflexivity].
Defined.

(** C5. Complement involution: on a bit string of binary digits, flipping
    twice gives back the same text.  [flip] always succeeds, turns every 0
    into 1 and every other digit into 0, and keeps the length; for example
    the flip of ["10101"] prints as ["01010"]. *)
Theorem flip_involution :
  (forall b : BitString,
      Forall is_bit (bits b) ->
      (b1 <- flip b ;; b2 <- flip b1 ;; Ok (__repr__ b2)) = Ok (__repr__ b))
  /\ (forall b : BitString,
         exists b' : BitString,
           flip b = Ok b'
           /\ bits b' = map flip_digit (bits b)
           /\ __len__ b' = __len__ b)
  /\ flip_digit 0 = 1
  /\ flip_digit 1 = 0
  /\ (b <- from_str (lit "10101") ;; b' <- flip b ;; Ok (__repr__ b'))
     = Ok (lit "01010").
Proof.
  split; [| split; [| repeat split; reflexivity]].
  - intros b Hb. rewrite flip_bits. cbn [bind].
    rewrite flip_bits. cbn [bind bits]. rewrite map_map.
    replace (map (fun x => flip_digit (flip_digit x)) (bits b)) with (bits b).
    + destruct b; reflexivity.
    + rewrite <- (map_id (bits b)) at 1. apply map_ext_in.
      intros x Hx. symmetry. apply flip_digit_involutive.
      rewrite Forall_forall in Hb. apply Hb, Hx.
  - intros b. exists (mkBitString (map flip_digit (bits b))).
    split; [apply flip_bits | split; [reflexivity |]].
    unfold __len__, len. cbn [bits]. rewrite length_map. reflexivity.
Qed.

Lemma flip_involution_witness :
  Forall is_bit (bits (mkBitString [1; 0; 1; 0; 1]))
  /\ (b1 <- flip (mkBitString [1; 0; 1; 0; 1]) ;;
      b2 <- flip b1 ;; Ok (__repr__ b2))
     = Ok (__repr__ (mkBitString [1; 0; 1; 0; 1])).
Proof.
  assert (H : Forall is_bit (bits (mkBitString [1; 0; 1; 0; 1])))
    by (cbn; forall_bits).
  split; [exact H |].
  exact (proj1 flip_involution (mkBitString [1; 0; 1; 0; 1]) H).
Defined.

(** ** [from_str] on arbitrary text *)

Lemma decimal_digit_In (c : ascii) :
  In c decimal_digits <-> decimal_digit c <> None.
Proof.
  destruct c as [[] [] [] [] [] [] [] []]; vm_compute;
    split; intros H;
    solve [ discriminate
          | exfalso; apply H; reflexivity
          | repeat (destruct H as [H | H]; [discriminate H |]); contradiction
          | intuition congruence ].
Qed.

Lemma decimal_digit_not_In (c : ascii) :
  ~ In c decimal_digits <-> decimal_digit c = None.
Proof.
  rewrite decimal_digit_In. destruct (decimal_digit c); split; intros H;
    congruence || (exfalso; apply H; discriminate).
Qed.

Lemma from_str_digits (s : str) :
  Forall (fun c => In c decimal_digits) s ->
  from_str s = Ok (mkBitString (map (fun c => code c - 48) s)).
Proof.
  intros Hs. unfold from_str.
  rewrite (comprehension_Ok _ (fun c => code c - 48)); [reflexivity |].
  intros c Hc. rewrite Forall_forall in Hs.
  specialize (Hs c Hc). apply decimal_digit_In in Hs.
  rewrite int_one_char. unfold decimal_digit in *.
  destruct ((48 <=? code c) && (code c <=? 57)); [reflexivity | congruence].
Qed.

Lemma comprehension_Raise {A B : Type}
  (f : A -> result B) (e : exn) (l : list A) :
  (forall x, In x l -> f x = Raise e \/ exists y, f x = Ok y) ->
  (exists x, In x l /\ f x = Raise e) ->
  comprehension f l = Raise e.
Proof.
  induction l as [| x t IH]; intros Hall [x0 [Hin Hx0]].
  - destruct Hin.
  - cbn [comprehension].
    destruct (Hall x (or_introl eq_refl)) as [Hx | [y Hx]]; rewrite Hx.
    + reflexivity.
    + cbn [bind]. rewrite IH; [reflexivity | |].
      * intros z Hz. apply Hall. right; exact Hz.
      * destruct Hin as [-> | Hin]; [congruence |].
        exists x0. split; assumption.
Qed.

Lemma from_str_not_digits (s : str) :
  (exists c, In c s /\ ~ In c decimal_digits) ->
  from_str s = Raise ValueError.
Proof.
  intros [c [Hc Hnd]]. unfold from_str.
  rewrite (comprehension_Raise _ ValueError); [reflexivity | |].
  - intros x _. rewrite int_one_char.
    destruct (decimal_digit x) as [d |]; [right; exists d | left]; reflexivity.
  - exists c. split; [exact Hc |].
    rewrite int_one_char. apply decimal_digit_not_In in Hnd.
    rewrite Hnd. reflexivity.
Qed.

(** C6, as stated, fails: a character that is a decimal digit other than
    ['0'] and ['1'] is accepted, and becomes a digit of the bit string. *)
Lemma from_str_accepts_digit_two :
  In "2" (lit "102")
  /\ Ascii.eqb "2" "0" = false
  /\ Ascii.eqb "2" "1" = false
  /\ from_str (lit "102") = Ok (mkBitString [1; 0; 2]).
Proof. repeat split; try reflexivity. right; right; left; reflexivity. Qed.

Lemma code_chr (n : Z) : latin1 n -> code (chr n) = n.
Proof.
  unfold latin1, code, chr. intros H.
  rewrite N_ascii_embedding by lia. lia.
Qed.

Lemma decimal_digit_chr (n : Z) :
  latin1 n ->
  decimal_digit (chr n)
  = if (48 <=? n) && (n <=? 57) then Some (n - 48) else None.
Proof. intros H. unfold decimal_digit. rewrite (code_chr n H). reflexivity. Qed.

(** C6, amended. On a text of Latin-1 characters (code points 0 to 255),
    [from_str] raises [ValueError] when some character is not a decimal
    digit ['0'] .. ['9'] (code points 48 to 57); on a text of decimal
    digits it succeeds with the values of the digits in order, a digit from
    ['2'] to ['9'] being kept as that digit; in particular, on a text of
    ['0'] and ['1'] only it succeeds and builds the bit string of those
    binary digits in order. *)
Theorem from_str_decimal_digits :
  (forall cps : list Z,
      Forall latin1 cps ->
      (exists n, In n cps /\ ~ 48 <= n <= 57) ->
      from_str (map chr cps) = Raise ValueError)
  /\ (forall cps : list Z,
         Forall (fun n => 48 <= n <= 57) cps ->
         from_str (map chr cps)
         = Ok (mkBitString (map (fun n => n - 48) cps)))
  /\ (forall s : str,
         Forall (fun c => c = "0" \/ c = "1") s ->
         exists bs : list Z,
           from_str s = Ok (mkBitString bs)
           /\ Forall is_bit bs
           /\ map bit_char bs = s).
Proof.
  split; [| split].
  - intros cps Hl [n [Hn Hnd]]. apply from_str_not_digits.
    exists (chr n). split; [apply in_map, Hn |].
    apply decimal_digit_not_In.
    rewrite Forall_forall in Hl. rewrite (decimal_digit_chr n (Hl n Hn)).
    destruct (Z.leb_spec 48 n), (Z.leb_spec n 57); cbn [andb];
      try reflexivity; lia.
  - intros cps Hd.
    assert (Hl : Forall latin1 cps)
      by (eapply Forall_impl; [| exact Hd]; unfold latin1; intros; lia).
    rewrite from_str_digits.
    + rewrite map_map. f_equal. f_equal. apply map_ext_in.
      intros n Hn. rewrite Forall_forall in Hl.
      rewrite (code_chr n (Hl n Hn)). reflexivity.
    + apply Forall_map, Forall_forall. intros n Hn.
      apply decimal_digit_In.
      rewrite Forall_forall in Hl, Hd.
      rewrite (decimal_digit_chr n (Hl n Hn)).
      pose proof (Hd n Hn) as Hr.
      destruct (Z.leb_spec 48 n), (Z.leb_spec n 57); cbn [andb];
        try discriminate; lia.
  - intros s Hs. exists (map (fun c => code c - 48) s).
    split; [| split].
    + apply from_str_digits. eapply Forall_impl; [| exact Hs].
      intros c [-> | ->]; cbn; auto 10.
    + apply Forall_map. eapply Forall_impl; [| exact Hs].
      intros c [-> | ->]; [left | right]; reflexivity.
    + rewrite map_map. rewrite <- (map_id s) at 2. apply map_ext_in.
      intros c Hc. rewrite Forall_forall in Hs.
      destruct (Hs c Hc) as [-> | ->]; reflexivity.
Qed.

Lemma from_str_decimal_digits_witness :
  (Forall latin1 [49; 97; 48] /\ In 97 [49; 97; 48] /\ ~ 48 <= 97 <= 57)
  /\ map chr [49; 97; 48] = lit "1a0"
  /\ from_str (map chr [49; 97; 48]) = Raise ValueError.
Proof.
  assert (Hl : Forall latin1 [49; 97; 48])
    by (unfold latin1; repeat constructor; lia).
  assert (Hn : In 97 [49; 97; 48]) by (right; left; reflexivity).
  assert (Hd : ~ 48 <= 97 <= 57) by lia.
  split; [repeat split; assumption | split; [reflexivity |]].
  apply (proj1 from_str_decimal_digits [49; 97; 48] Hl).
  exists 97. split; assumption.
Defined.

(** C7, as stated, fails: a value that does not fit in [length] bits is
    neither refused nor truncated, the bit string just gets longer. *)
Lemma from_int_overflow_succeeds :
  (0 <= 5 /\ 2 ^ 2 <= 5)
  /\ from_int 5 2 = Ok (mkBitString [1; 0; 1]).
Proof. split; [lia | reflexivity]. Qed.

(** C7, amended. For a non-negative [value] and a non-negative [length],
    [from_int] never fails and never truncates: it returns the binary
    digits of [value] with zeros in front up to [length] digits, a bit
    string whose value is [value].  It has exactly [length] digits when
    [value < 2 ^ length] (and [length >= 1]); when [value >= 2 ^ length] it
    is the unpadded binary notation of [value], with more than [length]
    digits. *)
Theorem from_int_pads_and_never_fails (value length : Z) :
  0 <= value -> 0 <= length ->
  exists bs : list Z,
    from_int value length = Ok (mkBitString bs)
    /\ bs = repeat 0 (Z.to_nat (length - len (binary_digits value)))
            ++ binary_digits value
    /\ Forall is_bit bs
    /\ unsigned_value bs = value
    /\ (1 <= length -> value < 2 ^ length -> len bs = length)
    /\ (2 ^ length <= value -> bs = binary_digits value /\ length < len bs).
Proof.
  intros Hv Hl. exists (padded_digits value length).
  split; [| split; [reflexivity | split; [| split; [| split]]]].
  - rewrite (from_int_nonneg value length Hv), Z.abs_eq by exact Hl.
    reflexivity.
  - apply Forall_is_bit_padded.
  - apply unsigned_value_padded, Hv.
  - intros H1 Hlt. rewrite len_padded_digits.
    pose proof (len_binary_digits value length (conj Hv Hlt) H1). lia.
  - intros Hge.
    pose proof (len_binary_digits_overflow value length Hl Hge) as Hlen.
    split; [| rewrite len_padded_digits; lia].
    unfold padded_digits.
    replace (Z.to_nat (length - len (binary_digits value))) with 0%nat by lia.
    reflexivity.
Qed.

Lemma from_int_pads_and_never_fails_witness :
  (0 <= 5 /\ 0 <= 2)
  /\ exists bs : list Z,
      from_int 5 2 = Ok (mkBitString bs)
      /\ bs = repeat 0 (Z.to_nat (2 - len (binary_digits 5)))
              ++ binary_digits 5
      /\ Forall is_bit bs
      /\ unsigned_value bs = 5
      /\ (1 <= 2 -> 5 < 2 ^ 2 -> len bs = 2)
      /\ (2 ^ 2 <= 5 -> bs = binary_digits 5 /\ 2 < len bs).
Proof.
  split; [lia |].
  apply (from_int_pads_and_never_fails 5 2); lia.
Defined.

(** A negative [value] is refused: its binary notation has a minus sign,
    which [from_str] rejects. *)
Lemma from_int_negative (value length : Z) :
  value < 0 -> from_int value length = Raise ValueError.
Proof.
  intros Hv. apply from_str_not_digits. exists "-".
  split; [| apply decimal_digit_not_In; reflexivity].
  unfold int_repr, rjust. apply in_or_app. right.
  destruct value as [| p | p]; [lia | lia | left; reflexivity].
Qed.

(** C8. [get_bit] returns the digit at position [p], position 0 being the
    first (most significant) one, when [0 <= p < length], and fails (on its
    assertion) when [p >= length]; on ["1010"], position 0 holds 1, position
    3 holds 0 and position 4 fails. *)
Theorem get_bit_positions :
  (forall (b : BitString) (p : Z),
      0 <= p < __len__ b ->
      exists d : Z,
        nth_error (bits b) (Z.to_nat p) = Some d /\ get_bit b p = Ok d)
  /\ (forall (b : BitString) (p : Z),
         __len__ b <= p -> get_bit b p = Raise AssertionError)
  /\ (b <- from_str (lit "1010") ;; get_bit b 0) = Ok 1
  /\ (b <- from_str (lit "1010") ;; get_bit b 3) = Ok 0
  /\ (b <- from_str (lit "1010") ;; get_bit b 4) = Raise AssertionError.
Proof.
  split; [| split; [exact get_bit_out_of_range | repeat split; reflexivity]].
  intros b p Hp. exists (nth (Z.to_nat p) (bits b) 0).
  split; [| apply get_bit_in_range, Hp].
  apply nth_error_nth'. unfold __len__, len in Hp. lia.
Qed.

Lemma get_bit_positions_witness :
  (0 <= 2 < __len__ (mkBitString [1; 0; 1; 0]))
  /\ exists d : Z,
      nth_error (bits (mkBitString [1; 0; 1; 0])) (Z.to_nat 2) = Some d
      /\ get_bit (mkBitString [1; 0; 1; 0]) 2 = Ok d.
Proof.
  assert (H : 0 <= 2 < __len__ (mkBitString [1; 0; 1; 0])) by (cbn; lia).
  split; [exact H |].
  exact (proj1 get_bit_positions (mkBitString [1; 0; 1; 0]) 2 H).
Defined.

(** Below position 0 the assertion passes and the list is indexed from its
    end, down to [- length]; further down the indexing fails. *)
Lemma get_bit_negative (b : BitString) (p : Z) :
  p < 0 ->
  get_bit b p
  = if - __len__ b <=? p
    then Ok (nth (Z.to_nat (p + __len__ b)) (bits b) 0)
    else Raise IndexError.
Proof.
  unfold __len__. intros Hp. unfold get_bit, getitem.
  assert (Hl : 0 <= len (bits b)) by (unfold len; lia).
  destruct (Z.ltb_spec p (len (bits b))) as [_ | Hge]; [| lia].
  destruct (Z.ltb_spec p 0) as [_ | Hge]; [| lia].
  destruct (Z.leb_spec (- len (bits b)) p) as [Hin | Hout].
  - destruct (Z.leb_spec 0 (p + len (bits b))) as [_ | Hneg]; [| lia].
    destruct (Z.ltb_spec (p + len (bits b)) (len (bits b))) as [_ | Hge]; [| lia].
    cbn [andb].
    rewrite (nth_error_nth' (bits b) 0); [reflexivity |].
    unfold len in *. lia.
  - destruct (Z.leb_spec 0 (p + len (bits b))) as [Hpos | _]; [lia |].
    reflexivity.
Qed.

(** * The claim about [day2.py] *)

Section Invariant.
Context {S : Type} `{SubmarineClass S}.
Variable Inv : S -> Prop.
Variable allowed : Instruction -> Prop.
Hypothesis step :
  forall (s : S) (i : Instruction),
    allowed i -> Inv s -> Inv (process_instruction s i).

(** An invariant of every allowed step holds after any run of allowed
    instructions. *)
Lemma process_all_invariant (instructions : list Instruction) :
  Forall allowed instructions ->
  forall s : S, Inv s -> Inv (process_all s instructions).
Proof.
  unfold process_all.
  induction 1 as [| i t Hi _ IH]; intros s Hs; simpl.
  - exact Hs.
  - apply IH, step; assumption.
Qed.

Lemma process_all_prefix_invariant (instructions : list Instruction) (k : nat) :
  Forall allowed instructions ->
  forall s : S, Inv s -> Inv (process_all s (firstn k instructions)).
Proof.
  intros Hall. apply process_all_invariant.
  rewrite Forall_forall in *. intros i Hi. apply Hall.
  rewrite <- (firstn_skipn k instructions). apply in_or_app. left; exact Hi.
Qed.

End Invariant.

Lemma Submarine_step (s : Submarine) (i : Instruction) :
  non_negative_value i ->
  0 <= depth s -> 0 <= depth (process_instruction s i).
Proof.
  unfold non_negative_value. destruct i as [[] v], s as [p d]; cbn; lia.
Qed.

Lemma AimSubmarine_step (s : AimSubmarine) (i : Instruction) :
  0 <= depth s -> 0 <= depth (process_instruction s i).
Proof. destruct i as [[] v], s as [p d a]; cbn; lia. Qed.

(** C9. Starting from position 0 and depth 0, and with instructions whose
    values are non-negative, the depth of a [Submarine] and of an
    [AimSubmarine] is at least 0 after each instruction, that is after
    every prefix of the instructions; [move_up] of the plain submarine and
    [move_forward] of the aim submarine clamp the depth at 0. *)
Theorem depth_never_negative (instructions : list Instruction) :
  Forall non_negative_value instructions ->
  (forall k : nat,
      0 <= depth (process_all new_Submarine (firstn k instructions))
      /\ 0 <= depth (process_all new_AimSubmarine (firstn k instructions)))
  /\ (forall (s : Submarine) (v : Z),
         depth (process_instruction s (mkInstruction UP v))
         = Z.max 0 (depth s - v))
  /\ (forall (s : AimSubmarine) (v : Z),
         depth (process_instruction s (mkInstruction FORWARD v))
         = Z.max 0 (depth s + aim s * v)).
Proof.
  intros Hall. split; [| split; reflexivity].
  intros k. split.
  - apply (process_all_prefix_invariant (fun s : Submarine => 0 <= depth s)
             non_negative_value Submarine_step instructions k Hall).
    cbn. lia.
  - apply (process_all_prefix_invariant (fun s : AimSubmarine => 0 <= depth s)
             non_negative_value
             (fun s i _ => AimSubmarine_step s i) instructions k Hall).
    cbn. lia.
Qed.

Lemma depth_never_negative_witness :
  Forall non_negative_value example_instructions
  /\ 0 <= depth (process_all new_Submarine (firstn 4 example_instructions))
  /\ 0 <= depth (process_all new_AimSubmarine (firstn 4 example_instructions)).
Proof.
  assert (H : Forall non_negative_value example_instructions)
    by (unfold non_negative_value; repeat constructor; cbn; lia).
  split; [exact H |].
  exact (proj1 (depth_never_negative example_instructions H) 4%nat).
Defined.

(** The norms [test_example_part1] and [test_example_part2] expect. *)
Example example_norms :
  calculate_submarine_norm new_Submarine example_instructions = 150
  /\ calculate_submarine_norm new_AimSubmarine example_instructions = 900.
Proof. split; reflexivity. Qed.

(** * Further properties of [day3.py] *)

(** ** Bit strings of decimal digits *)

Lemma str_int_decimal (d : Z) : is_decimal d -> str_int d = [decimal_char d].
Proof. intros H. decimal_cases H d; reflexivity. Qed.

Lemma int_decimal_char (d : Z) :
  is_decimal d -> int [decimal_char d] 10 = Ok d.
Proof. intros H. decimal_cases H d; reflexivity. Qed.

Lemma join_str_int_decimal (bs : list Z) :
  Forall is_decimal bs -> join (map str_int bs) = map decimal_char bs.
Proof.
  unfold join. induction 1 as [| d t Hd _ IH]; simpl.
  - reflexivity.
  - rewrite (str_int_decimal d Hd), IH. reflexivity.
Qed.

Lemma repr_decimal (bs : list Z) :
  Forall is_decimal bs -> __repr__ (mkBitString bs) = map decimal_char bs.
Proof. intros H. unfold __repr__. apply join_str_int_decimal, H. Qed.

Lemma from_str_decimal_chars (bs : list Z) :
  Forall is_decimal bs -> from_str (map decimal_char bs) = Ok (mkBitString bs).
Proof.
  intros Hbs. unfold from_str.
  rewrite (comprehension_Ok _ (fun c => code c - 48)).
  - simpl. rewrite map_map. f_equal. f_equal.
    rewrite <- (map_id bs) at 2. apply map_ext_in.
    intros d Hd. rewrite Forall_forall in Hbs. specialize (Hbs d Hd).
    decimal_cases Hbs d; reflexivity.
  - intros c Hc. apply in_map_iff in Hc. destruct Hc as [d [<- Hd]].
    rewrite Forall_forall in Hbs. specialize (Hbs d Hd).
    decimal_cases Hbs d; reflexivity.
Qed.

Lemma decimal_digits_char (c : ascii) :
  In c decimal_digits ->
  is_decimal (code c - 48) /\ decimal_char (code c - 48) = c.
Proof.
  intros H. unfold decimal_digits in H. cbn in H.
  repeat (destruct H as [<- | H]; [split; [cbv; split; discriminate | reflexivity] |]).
  destruct H.
Qed.

Lemma decimal_digits_or_not (s : str) :
  Forall (fun c => In c decimal_digits) s
  \/ exists c, In c s /\ ~ In c decimal_digits.
Proof.
  induction s as [| c t [IH | [x [Hx Hn]]]].
  - left. constructor.
  - destruct (in_dec ascii_dec c decimal_digits) as [Hc | Hc].
    + left. constructor; assumption.
    + right. exists c. split; [left; reflexivity | exact Hc].
  - right. exists x. split; [right; exact Hx | exact Hn].
Qed.

(** X1. Printing and reading back: a bit string whose digits are between 0
    and 9, binary digits among them, is what [from_str] builds from its
    [__repr__]. *)
Theorem from_str_repr_round_trip (b : BitString) :
  Forall is_decimal (bits b) -> from_str (__repr__ b) = Ok b.
Proof.
  destruct b as [bs]. cbn [bits]. intros H.
  rewrite (repr_decimal bs H). apply from_str_decimal_chars, H.
Qed.

Lemma from_str_repr_round_trip_witness :
  Forall is_decimal (bits (mkBitString [1; 0; 9; 2]))
  /\ from_str (__repr__ (mkBitString [1; 0; 9; 2]))
     = Ok (mkBitString [1; 0; 9; 2]).
Proof.
  assert (H : Forall is_decimal (bits (mkBitString [1; 0; 9; 2])))
    by (cbn; unfold is_decimal; repeat constructor; lia).
  split; [exact H |].
  exact (from_str_repr_round_trip (mkBitString [1; 0; 9; 2]) H).
Defined.

Lemma from_str_success_chars (s : str) (b : BitString) :
  from_str s = Ok b ->
  Forall (fun c => In c decimal_digits) s
  /\ bits b = map (fun c => code c - 48) s
  /\ Forall is_decimal (bits b)
  /\ __repr__ b = s.
Proof.
  intros Hb.
  destruct (decimal_digits_or_not s) as [Hs | Hs].
  - rewrite (from_str_digits s Hs) in Hb. injection Hb as <-.
    assert (Hd : Forall is_decimal (map (fun c => code c - 48) s)).
    { apply Forall_map. eapply Forall_impl; [| exact Hs].
      intros c Hc. apply decimal_digits_char, Hc. }
    split; [exact Hs | split; [reflexivity | split; [exact Hd |]]].
    rewrite (repr_decimal _ Hd), map_map.
    rewrite <- (map_id s) at 2. apply map_ext_in.
    intros c Hc. rewrite Forall_forall in Hs.
    apply decimal_digits_char, Hs, Hc.
  - rewrite (from_str_not_digits s Hs) in Hb. discriminate.
Qed.

(** X2. On a text of Latin-1 characters (code points 0 to 255), whenever
    [from_str] succeeds, every character is a decimal digit ['0'] .. ['9']
    (code points 48 to 57), the bit string has one digit per character,
    the digits are the values of the characters, between 0 and 9, and
    [__repr__] prints the text again. *)
Theorem from_str_success (cps : list Z) (b : BitString) :
  Forall latin1 cps ->
  from_str (map chr cps) = Ok b ->
  Forall (fun n => 48 <= n <= 57) cps
  /\ __len__ b = len cps
  /\ bits b = map (fun n => n - 48) cps
  /\ Forall is_decimal (bits b)
  /\ __repr__ b = map chr cps.
Proof.
  intros Hl Hb.
  destruct (from_str_success_chars _ b Hb) as [Hs [Hbits [Hdec Hrepr]]].
  assert (Hd : Forall (fun n => 48 <= n <= 57) cps).
  { apply Forall_forall. intros n Hn.
    rewrite Forall_forall in Hs, Hl.
    assert (Hc : In (chr n) decimal_digits) by (apply Hs, in_map, Hn).
    apply decimal_digit_In in Hc.
    rewrite (decimal_digit_chr n (Hl n Hn)) in Hc.
    destruct (Z.leb_spec 48 n), (Z.leb_spec n 57); cbn [andb] in Hc;
      try lia; contradiction. }
  assert (Hbits' : bits b = map (fun n => n - 48) cps).
  { rewrite Hbits, map_map. apply map_ext_in. intros n Hn.
    rewrite Forall_forall in Hl. rewrite (code_chr n (Hl n Hn)).
    reflexivity. }
  split; [exact Hd | split; [| split; [exact Hbits' | split; assumption]]].
  unfold __len__, len. rewrite Hbits', length_map. reflexivity.
Qed.

Lemma from_str_success_witness :
  (Forall latin1 [49; 48; 57; 50]
   /\ from_str (map chr [49; 48; 57; 50]) = Ok (mkBitString [1; 0; 9; 2]))
  /\ map chr [49; 48; 57; 50] = lit "1092"
  /\ __len__ (mkBitString [1; 0; 9; 2]) = len [49; 48; 57; 50]
  /\ __repr__ (mkBitString [1; 0; 9; 2]) = map chr [49; 48; 57; 50].
Proof.
  assert (Hl : Forall latin1 [49; 48; 57; 50])
    by (unfold latin1; repeat constructor; lia).
  assert (H : from_str (map chr [49; 48; 57; 50])
              = Ok (mkBitString [1; 0; 9; 2])) by reflexivity.
  split; [split; assumption | split; [reflexivity |]].
  pose proof (from_str_success [49; 48; 57; 50] (mkBitString [1; 0; 9; 2])
                Hl H) as [_ [Hlen [_ [_ Hrepr]]]].
  split; [exact Hlen | exact Hrepr].
Defined.

(** ** Reading a bit string as an integer *)

Lemma int_space_decimal_char (d : Z) :
  is_decimal d -> int_space (decimal_char d) = false.
Proof. intros H. decimal_cases H d; reflexivity. Qed.

Lemma strip_decimal_chars (bs : list Z) :
  Forall is_decimal bs ->
  strip int_space (map decimal_char bs) = map decimal_char bs.
Proof.
  intros H. apply strip_no_space, Forall_map.
  eapply Forall_impl; [| exact H]. apply int_space_decimal_char.
Qed.

Lemma split_sign_decimal_chars (bs : list Z) :
  Forall is_decimal bs ->
  split_sign (map decimal_char bs) = (1, map decimal_char bs).
Proof.
  destruct 1 as [| d t Hd _]; [reflexivity |].
  decimal_cases Hd d; reflexivity.
Qed.

Lemma skip_prefix_decimal_chars (bs : list Z) :
  Forall is_decimal bs ->
  skip_prefix 2 (map decimal_char bs) = map decimal_char bs.
Proof.
  destruct 1 as [| d t Hd Ht]; [reflexivity |].
  destruct Ht as [| d' t' Hd' _].
  - decimal_cases Hd d; reflexivity.
  - decimal_cases Hd d; try reflexivity.
    decimal_cases Hd' d'; reflexivity.
Qed.

(** A digit that is not binary stops the reading in base 2. *)
Lemma digits_not_binary (bs : list Z) :
  Forall is_decimal bs -> Exists (fun d => 2 <= d) bs ->
  forall (acc : Z) (after_digit : bool),
    digits 2 acc after_digit (map decimal_char bs) = None.
Proof.
  induction 1 as [| d t Hd _ IH]; intros Hex acc after_digit.
  - inversion Hex.
  - destruct (Z_lt_le_dec d 2) as [Hlt | Hge].
    + assert (Ht : Exists (fun d => 2 <= d) t)
        by (inversion Hex; subst; [lia | assumption]).
      assert (E : d = 0 \/ d = 1) by (unfold is_decimal in Hd; lia).
      destruct E as [-> | ->]; cbn; apply IH, Ht.
    + clear IH Hex. decimal_cases Hd d; try lia; reflexivity.
Qed.

(** X3. On a bit string whose digits are between 0 and 9, as [from_str]
    builds them, [__int__] returns the unsigned value when there is at
    least one digit and all digits are binary, and raises [ValueError]
    when there is no digit or some digit is 2 or more. *)
Theorem int_of_decimal_digits (b : BitString) :
  Forall is_decimal (bits b) ->
  (bits b <> [] -> Forall is_bit (bits b) ->
   __int__ b = Ok (unsigned_value (bits b)))
  /\ (bits b = [] \/ Exists (fun d => 2 <= d) (bits b) ->
      __int__ b = Raise ValueError).
Proof.
  destruct b as [bs]. cbn [bits]. intros Hdec. split.
  - intros Hne Hbin. apply int_of_bits; assumption.
  - intros [-> | Hex]; [reflexivity |].
    unfold __int__. cbn [bits].
    rewrite (join_str_int_decimal bs Hdec). unfold int.
    rewrite (strip_decimal_chars bs Hdec),
      (split_sign_decimal_chars bs Hdec),
      (skip_prefix_decimal_chars bs Hdec),
      (digits_not_binary bs Hdec Hex).
    reflexivity.
Qed.

Lemma int_of_decimal_digits_witness :
  (Forall is_decimal (bits (mkBitString [1; 0; 2]))
   /\ Exists (fun d => 2 <= d) (bits (mkBitString [1; 0; 2])))
  /\ from_str (lit "102") = Ok (mkBitString [1; 0; 2])
  /\ __int__ (mkBitString [1; 0; 2]) = Raise ValueError.
Proof.
  assert (H : Forall is_decimal (bits (mkBitString [1; 0; 2])))
    by (cbn; unfold is_decimal; repeat constructor; lia).
  assert (E : Exists (fun d => 2 <= d) (bits (mkBitString [1; 0; 2])))
    by (cbn; do 2 apply Exists_cons_tl; apply Exists_cons_hd; lia).
  split; [split; assumption | split; [reflexivity |]].
  exact (proj2 (int_of_decimal_digits (mkBitString [1; 0; 2]) H)
           (or_intror E)).
Defined.

(** X4. Reading and writing back: on a bit string of at least one binary
    digit, [from_int] at the value [__int__] returns and at the length of
    the bit string gives the bit string again, leading zeros included. *)
Theorem from_int_int_round_trip (b : BitString) :
  bits b <> [] -> Forall is_bit (bits b) ->
  (v <- __int__ b ;; from_int v (__len__ b)) = Ok b.
Proof.
  destruct b as [bs]. cbn [bits]. intros Hne Hbin.
  rewrite (int_of_bits bs Hne Hbin). cbn [bind]. unfold __len__. cbn [bits].
  apply from_int_unsigned_value; assumption.
Qed.

Lemma from_int_int_round_trip_witness :
  (bits (mkBitString [0; 0; 1; 0; 1]) <> []
   /\ Forall is_bit (bits (mkBitString [0; 0; 1; 0; 1])))
  /\ (v <- __int__ (mkBitString [0; 0; 1; 0; 1]) ;;
      from_int v (__len__ (mkBitString [0; 0; 1; 0; 1])))
     = Ok (mkBitString [0; 0; 1; 0; 1]).
Proof.
  assert (Hne : bits (mkBitString [0; 0; 1; 0; 1]) <> []) by discriminate.
  assert (H : Forall is_bit (bits (mkBitString [0; 0; 1; 0; 1])))
    by (cbn; forall_bits).
  split; [split; assumption |].
  exact (from_int_int_round_trip (mkBitString [0; 0; 1; 0; 1]) Hne H).
Defined.

(** The digit at position [p] of a sequence of binary digits, from its
    value. *)
Lemma nth_unsigned_value (bs : list Z) :
  Forall is_bit bs ->
  forall p : nat,
    (p < List.length bs)%nat ->
    nth p bs 0 = (unsigned_value bs / 2 ^ (len bs - 1 - Z.of_nat p)) mod 2.
Proof.
  induction 1 as [| x t Hx Ht IH]; intros p Hp; [cbn in Hp; lia |].
  rewrite unsigned_value_cons.
  pose proof (unsigned_value_bounds t Ht) as B.
  assert (Hk : 0 <= len t) by (unfold len; lia).
  replace (len (x :: t)) with (len t + 1)
    by (unfold len; cbn [List.length]; lia).
  destruct p as [| p'].
  - cbn [nth]. replace (len t + 1 - 1 - Z.of_nat 0) with (len t) by lia.
    rewrite Z.div_add_l by lia. rewrite (Z.div_small _ _ B).
    destruct Hx as [-> | ->]; reflexivity.
  - cbn [nth]. cbn [List.length] in Hp.
    assert (Hp' : (p' < List.length t)%nat) by lia.
    rewrite (IH p' Hp').
    assert (Hn : 0 <= len t - 1 - Z.of_nat p') by (unfold len; lia).
    replace (len t + 1 - 1 - Z.of_nat (S p')) with (len t - 1 - Z.of_nat p')
      by lia.
    set (n := len t - 1 - Z.of_nat p') in *.
    assert (E : 2 ^ len t = 2 ^ Z.of_nat p' * 2 * 2 ^ n).
    { rewrite <- (Z.pow_1_r 2) at 3.
      rewrite <- !Z.pow_add_r by lia. f_equal. unfold n. lia. }
    rewrite E.
    replace (x * (2 ^ Z.of_nat p' * 2 * 2 ^ n))
      with (x * 2 ^ Z.of_nat p' * 2 * 2 ^ n) by ring.
    assert (Hpow : 0 < 2 ^ n) by (apply Z.pow_pos_nonneg; lia).
    rewrite Z.div_add_l by lia.
    rewrite Z.add_comm, Z.mod_add by lia. reflexivity.
Qed.

(** X5. Position 0 is the most significant: on a bit string of [L] binary
    digits with value [v], [get_bit] at a position [p] from 0 to [L - 1]
    returns the binary digit of weight [2 ^ (L - 1 - p)] of [v]. *)
Theorem get_bit_of_value (b : BitString) (p : Z) :
  Forall is_bit (bits b) -> 0 <= p < __len__ b ->
  exists v : Z,
    __int__ b = Ok v
    /\ get_bit b p = Ok ((v / 2 ^ (__len__ b - 1 - p)) mod 2)
    /\ get_bit b p = Ok (Z.b2z (Z.testbit v (__len__ b - 1 - p))).
Proof.
  destruct b as [bs]. unfold __len__. cbn [bits]. intros Hbin Hp.
  assert (Hne : bs <> []) by (destruct bs; [cbn in Hp; lia | discriminate]).
  exists (unsigned_value bs).
  assert (Hg : get_bit (mkBitString bs) p
               = Ok ((unsigned_value bs / 2 ^ (len bs - 1 - p)) mod 2)).
  { rewrite get_bit_in_range by exact Hp. cbn [bits]. f_equal.
    rewrite (nth_unsigned_value bs Hbin (Z.to_nat p))
      by (unfold len in Hp; lia).
    rewrite Z2Nat.id by lia. reflexivity. }
  split; [apply int_of_bits; assumption | split; [exact Hg |]].
  rewrite Hg. f_equal. rewrite Z.testbit_spec' by lia.
  reflexivity.
Qed.

Lemma get_bit_of_value_witness :
  (Forall is_bit (bits (mkBitString [1; 0; 1; 1; 0]))
   /\ 0 <= 1 < __len__ (mkBitString [1; 0; 1; 1; 0]))
  /\ exists v : Z,
      __int__ (mkBitString [1; 0; 1; 1; 0]) = Ok v
      /\ get_bit (mkBitString [1; 0; 1; 1; 0]) 1
         = Ok ((v / 2 ^ (__len__ (mkBitString [1; 0; 1; 1; 0]) - 1 - 1))
               mod 2)
      /\ get_bit (mkBitString [1; 0; 1; 1; 0]) 1
         = Ok (Z.b2z (Z.testbit v
                        (__len__ (mkBitString [1; 0; 1; 1; 0]) - 1 - 1))).
Proof.
  assert (H : Forall is_bit (bits (mkBitString [1; 0; 1; 1; 0])))
    by (cbn; forall_bits).
  assert (Hp : 0 <= 1 < __len__ (mkBitString [1; 0; 1; 1; 0]))
    by (cbn; lia).
  split; [split; assumption |].
  exact (get_bit_of_value (mkBitString [1; 0; 1; 1; 0]) 1 H Hp).
Defined.

(** X6. [flip] is the ones' complement: on a bit string of [L >= 1] binary
    digits, the value of the bit string and the value of its flip add up to
    [2 ^ L - 1]. *)
Theorem flip_ones_complement (b : BitString) :
  bits b <> [] -> Forall is_bit (bits b) ->
  exists v w : Z,
    __int__ b = Ok v
    /\ (f <- flip b ;; __int__ f) = Ok w
    /\ v + w = 2 ^ __len__ b - 1.
Proof.
  destruct b as [bs]. unfold __len__. cbn [bits]. intros Hne Hbin.
  exists (unsigned_value bs), (unsigned_value (map flip_digit bs)).
  split; [apply int_of_bits; assumption | split].
  - rewrite flip_bits. cbn [bind bits].
    apply int_of_bits; [| apply Forall_is_bit_flip].
    intros E. apply map_eq_nil in E. contradiction.
  - apply unsigned_value_flip, Hbin.
Qed.

Lemma flip_ones_complement_witness :
  (bits (mkBitString [1; 0; 1; 1; 0]) <> []
   /\ Forall is_bit (bits (mkBitString [1; 0; 1; 1; 0])))
  /\ exists v w : Z,
      __int__ (mkBitString [1; 0; 1; 1; 0]) = Ok v
      /\ (f <- flip (mkBitString [1; 0; 1; 1; 0]) ;; __int__ f) = Ok w
      /\ v + w = 2 ^ __len__ (mkBitString [1; 0; 1; 1; 0]) - 1.
Proof.
  assert (Hne : bits (mkBitString [1; 0; 1; 1; 0]) <> []) by discriminate.
  assert (H : Forall is_bit (bits (mkBitString [1; 0; 1; 1; 0])))
    by (cbn; forall_bits).
  split; [split; assumption |].
  exact (flip_ones_complement (mkBitString [1; 0; 1; 1; 0]) Hne H).
Defined.

(** ** Edges of [from_int] and [get_bit] *)

(** X7. [from_int] raises [ValueError] on every negative value (its binary
    notation has a minus sign, which [from_str] refuses).  On a non-negative
    value it succeeds whatever the length is: a negative length pads as
    its absolute value does. *)
Theorem from_int_all_arguments (value length : Z) :
  (value < 0 -> from_int value length = Raise ValueError)
  /\ (0 <= value ->
      from_int value length
      = Ok (mkBitString (padded_digits value (Z.abs length)))
      /\ from_int value (- length) = from_int value length).
Proof.
  split; [apply from_int_negative |].
  intros Hv. split; [apply from_int_nonneg, Hv |].
  rewrite !from_int_nonneg by exact Hv. rewrite Z.abs_opp. reflexivity.
Qed.

Lemma from_int_all_arguments_witness :
  (-5 < 0 /\ 0 <= 1)
  /\ from_int (-5) 8 = Raise ValueError
  /\ from_int 1 (- 3) = Ok (mkBitString [0; 0; 1]).
Proof.
  split; [lia | split].
  - apply (proj1 (from_int_all_arguments (-5) 8)). lia.
  - apply (proj1 (proj2 (from_int_all_arguments 1 (- 3)) ltac:(lia))).
Defined.

(** X8. Below position 0 [get_bit] counts from the end: the assertion lets
    every negative position through, a position from [- length] to [-1]
    returns the digit at that position plus [length], and a position below
    [- length] raises [IndexError]. *)
Theorem get_bit_negative_positions (b : BitString) (p : Z) :
  (- __len__ b <= p < 0 ->
   get_bit b p = get_bit b (p + __len__ b)
   /\ get_bit b p = Ok (nth (Z.to_nat (p + __len__ b)) (bits b) 0))
  /\ (p < - __len__ b -> get_bit b p = Raise IndexError).
Proof.
  split.
  - intros Hp. rewrite get_bit_negative by lia.
    destruct (Z.leb_spec (- __len__ b) p) as [_ | Hlt]; [| lia].
    split; [| reflexivity].
    rewrite get_bit_in_range by lia. reflexivity.
  - intros Hp.
    assert (Hl : 0 <= __len__ b) by (unfold __len__, len; lia).
    rewrite get_bit_negative by lia.
    destruct (Z.leb_spec (- __len__ b) p) as [Hge | _]; [lia | reflexivity].
Qed.

Lemma get_bit_negative_positions_witness :
  (- __len__ (mkBitString [1; 0; 1; 0]) <= -1 < 0
   /\ -5 < - __len__ (mkBitString [1; 0; 1; 0]))
  /\ get_bit (mkBitString [1; 0; 1; 0]) (-1)
     = get_bit (mkBitString [1; 0; 1; 0]) 3
  /\ get_bit (mkBitString [1; 0; 1; 0]) (-5) = Raise IndexError.
Proof.
  assert (H1 : - __len__ (mkBitString [1; 0; 1; 0]) <= -1 < 0) by (cbn; lia).
  assert (H2 : -5 < - __len__ (mkBitString [1; 0; 1; 0])) by (cbn; lia).
  split; [split; assumption | split].
  - exact (proj1 (proj1 (get_bit_negative_positions
                           (mkBitString [1; 0; 1; 0]) (-1)) H1)).
  - exact (proj2 (get_bit_negative_positions
                    (mkBitString [1; 0; 1; 0]) (-5)) H2).
Defined.

(** ** Reports that are not well formed *)

Lemma get_bit_nonneg_cases (r : BitString) (i : Z) :
  0 <= i ->
  get_bit r i = Raise AssertionError \/ exists d, get_bit r i = Ok d.
Proof.
  intros Hi. destruct (Z_lt_le_dec i (__len__ r)) as [Hlt | Hge].
  - right. eexists. apply get_bit_in_range. lia.
  - left. apply get_bit_out_of_range, Hge.
Qed.

Lemma sum_gen_cases {A : Type} (f : A -> result Z) (e : exn) (l : list A) :
  (forall x, In x l -> f x = Raise e \/ exists y, f x = Ok y) ->
  forall start : Z,
    sum_gen f l start = Raise e \/ exists y, sum_gen f l start = Ok y.
Proof.
  induction l as [| x t IH]; intros Hall start; cbn [sum_gen].
  - right. eexists. reflexivity.
  - destruct (Hall x (or_introl eq_refl)) as [Hx | [y Hx]]; rewrite Hx.
    + left. reflexivity.
    + cbn [bind]. apply IH. intros z Hz. apply Hall. right; exact Hz.
Qed.

Lemma sum_gen_Raise {A : Type} (f : A -> result Z) (e : exn) (l : list A) :
  (forall x, In x l -> f x = Raise e \/ exists y, f x = Ok y) ->
  (exists x, In x l /\ f x = Raise e) ->
  forall start : Z, sum_gen f l start = Raise e.
Proof.
  induction l as [| x t IH]; intros Hall [x0 [Hin Hx0]] start.
  - destruct Hin.
  - cbn [sum_gen].
    destruct (Hall x (or_introl eq_refl)) as [Hx | [y Hx]]; rewrite Hx.
    + reflexivity.
    + cbn [bind]. apply IH.
      * intros z Hz. apply Hall. right; exact Hz.
      * destruct Hin as [-> | Hin]; [congruence |].
        exists x0. split; assumption.
Qed.

Lemma most_common_bit_cases (self : DiagnosticReport) (i : Z) :
  0 <= i ->
  most_common_bit self i = Raise AssertionError
  \/ exists y, most_common_bit self i = Ok y.
Proof.
  intros Hi. unfold most_common_bit.
  destruct (sum_gen_cases (fun record => get_bit record i) AssertionError
              (records self)
              (fun x _ => get_bit_nonneg_cases x i Hi) 0) as [E | [y E]];
    rewrite E; [left | right; eexists]; reflexivity.
Qed.

Lemma In_range (n i : Z) : In i (range n) <-> 0 <= i < n.
Proof.
  unfold range. rewrite in_map_iff. split.
  - intros [k [<- Hk]]. apply in_seq in Hk. lia.
  - intros Hi. exists (Z.to_nat i). split; [lia | apply in_seq; lia].
Qed.

(** X9. A report without records has no first record to take the bit
    length from: its three rates raise [IndexError].  A report in which
    some record is shorter than the first one raises [AssertionError] from
    its three rates, whatever the digits are. *)
Theorem rates_of_ill_formed_reports :
  (bit_length (mkDiagnosticReport []) = Raise IndexError
   /\ gamma_rate (mkDiagnosticReport []) = Raise IndexError
   /\ epsilon_rate (mkDiagnosticReport []) = Raise IndexError
   /\ power_consumption (mkDiagnosticReport []) = Raise IndexError)
  /\ (forall (first : BitString) (others : list BitString),
         Exists (fun r => __len__ r < __len__ first) others ->
         gamma_rate (mkDiagnosticReport (first :: others))
         = Raise AssertionError
         /\ epsilon_rate (mkDiagnosticReport (first :: others))
            = Raise AssertionError
         /\ power_consumption (mkDiagnosticReport (first :: others))
            = Raise AssertionError).
Proof.
  split; [repeat split; reflexivity |].
  intros first others Hex.
  assert (Hg : gamma_rate (mkDiagnosticReport (first :: others))
               = Raise AssertionError).
  { unfold gamma_rate.
    change (bit_length (mkDiagnosticReport (first :: others)))
      with (Ok (__len__ first)).
    cbn [bind].
    rewrite (comprehension_Raise _ AssertionError); [reflexivity | |].
    - intros i Hi. apply In_range in Hi. apply most_common_bit_cases. lia.
    - apply Exists_exists in Hex. destruct Hex as [r [Hr Hlt]].
      assert (H0 : 0 <= __len__ r) by (unfold __len__, len; lia).
      exists (__len__ r). split; [apply In_range; lia |].
      unfold most_common_bit. cbn [records].
      rewrite (sum_gen_Raise _ AssertionError); [reflexivity | |].
      + intros x _. apply get_bit_nonneg_cases, H0.
      + exists r. split; [right; exact Hr |].
        apply get_bit_out_of_range. lia. }
  split; [exact Hg | split].
  - unfold epsilon_rate. rewrite Hg. reflexivity.
  - unfold power_consumption. rewrite Hg. reflexivity.
Qed.

Lemma rates_of_ill_formed_reports_witness :
  Exists (fun r => __len__ r < __len__ (mkBitString [1; 0; 1]))
    [mkBitString [0; 1; 1]; mkBitString [1; 1]]
  /\ gamma_rate
       (mkDiagnosticReport
          [mkBitString [1; 0; 1]; mkBitString [0; 1; 1]; mkBitString [1; 1]])
     = Raise AssertionError.
Proof.
  assert (H : Exists (fun r => __len__ r < __len__ (mkBitString [1; 0; 1]))
                [mkBitString [0; 1; 1]; mkBitString [1; 1]])
    by (apply Exists_cons_tl, Exists_cons_hd; cbn; lia).
  split; [exact H |].
  exact (proj1 (proj2 rates_of_ill_formed_reports
                  (mkBitString [1; 0; 1])
                  [mkBitString [0; 1; 1]; mkBitString [1; 1]] H)).
Defined.

Lemma comprehension_ext {A B : Type} (f g : A -> result B) (l : list A) :
  (forall x, In x l -> f x = g x) -> comprehension f l = comprehension g l.
Proof.
  induction l as [| x t IH]; intros H; cbn [comprehension].
  - reflexivity.
  - rewrite (H x (or_introl eq_refl)), IH;
      [reflexivity | intros y Hy; apply H; right; exact Hy].
Qed.

Lemma sum_gen_map {A B : Type} (f : A -> result Z) (g : B -> result Z)
  (h : A -> B) (l : list A) :
  (forall x, In x l -> f x = g (h x)) ->
  forall start : Z, sum_gen f l start = sum_gen g (map h l) start.
Proof.
  induction l as [| x t IH]; intros H start; cbn [sum_gen map].
  - reflexivity.
  - rewrite (H x (or_introl eq_refl)). destruct (g (h x)); cbn [bind].
    + apply IH. intros y Hy. apply H. right; exact Hy.
    + reflexivity.
Qed.

Lemma get_bit_truncate (L : nat) (r : BitString) (i : Z) :
  0 <= i < Z.of_nat L -> (L <= List.length (bits r))%nat ->
  get_bit r i = get_bit (truncate L r) i.
Proof.
  intros Hi HL.
  rewrite !get_bit_in_range.
  - unfold truncate. cbn [bits]. rewrite nth_firstn.
    destruct (Nat.ltb_spec (Z.to_nat i) L) as [_ | Hge]; [reflexivity | lia].
  - unfold truncate, __len__, len. cbn [bits]. rewrite length_firstn. lia.
  - unfold __len__, len. lia.
Qed.

(** X10. Digits beyond the length of the first record are never read: when
    no record is shorter than the first one, the three rates are those of
    the report whose records are cut down to that length. *)
Theorem rates_ignore_extra_digits (first : BitString) (others : list BitString) :
  Forall (fun r => (List.length (bits first) <= List.length (bits r))%nat)
    others ->
  let rs := first :: others in
  let cut := map (truncate (List.length (bits first))) rs in
  records_of_length (List.length (bits first)) cut
  /\ gamma_rate (mkDiagnosticReport rs) = gamma_rate (mkDiagnosticReport cut)
  /\ epsilon_rate (mkDiagnosticReport rs)
     = epsilon_rate (mkDiagnosticReport cut)
  /\ power_consumption (mkDiagnosticReport rs)
     = power_consumption (mkDiagnosticReport cut).
Proof.
  intros Hlen rs cut. set (L := List.length (bits first)) in *.
  assert (Hall : Forall (fun r => (L <= List.length (bits r))%nat) rs)
    by (constructor; [unfold L; lia | exact Hlen]).
  assert (Hcut : records_of_length L cut).
  { unfold records_of_length, cut. apply Forall_map.
    eapply Forall_impl; [| exact Hall].
    intros r Hr. unfold truncate. cbn [bits].
    apply firstn_length_le, Hr. }
  assert (Hb : bit_length (mkDiagnosticReport rs) = Ok (Z.of_nat L)
               /\ bit_length (mkDiagnosticReport cut) = Ok (Z.of_nat L)).
  { split; [reflexivity |].
    change (bit_length (mkDiagnosticReport cut))
      with (Ok (__len__ (truncate L first))).
    unfold truncate, __len__, len, L. cbn [bits].
    rewrite firstn_all. reflexivity. }
  destruct Hb as [Hb1 Hb2].
  assert (Hg : gamma_rate (mkDiagnosticReport rs)
               = gamma_rate (mkDiagnosticReport cut)).
  { unfold gamma_rate. rewrite Hb1, Hb2. cbn [bind].
    rewrite (comprehension_ext (most_common_bit (mkDiagnosticReport rs))
               (most_common_bit (mkDiagnosticReport cut))); [reflexivity |].
    intros i Hi. apply In_range in Hi.
    unfold most_common_bit. cbn [records].
    rewrite (sum_gen_map (fun record => get_bit record i)
               (fun record => get_bit record i) (truncate L) rs).
    - fold cut. unfold cut, len. rewrite length_map. reflexivity.
    - intros r Hr. apply get_bit_truncate; [exact Hi |].
      rewrite Forall_forall in Hall. apply Hall, Hr. }
  assert (He : epsilon_rate (mkDiagnosticReport rs)
               = epsilon_rate (mkDiagnosticReport cut))
    by (unfold epsilon_rate; rewrite Hg, Hb1, Hb2; reflexivity).
  repeat split; try assumption.
  unfold power_consumption. rewrite Hg, He. reflexivity.
Qed.

Lemma rates_ignore_extra_digits_witness :
  Forall (fun r => (List.length (bits (mkBitString [1; 0]%Z)) <=
                    List.length (bits r))%nat)
    [mkBitString [0; 1; 1; 1]; mkBitString [1; 1; 0]]
  /\ gamma_rate
       (mkDiagnosticReport
          [mkBitString [1; 0]; mkBitString [0; 1; 1; 1];
           mkBitString [1; 1; 0]])
     = gamma_rate
         (mkDiagnosticReport
            [mkBitString [1; 0]; mkBitString [0; 1]; mkBitString [1; 1]]).
Proof.
  assert (H : Forall (fun r => (List.length (bits (mkBitString [1; 0]%Z)) <=
                                List.length (bits r))%nat)
                [mkBitString [0; 1; 1; 1]; mkBitString [1; 1; 0]])
    by (repeat constructor; cbn; lia).
  split; [exact H |].
  exact (proj1 (proj2 (rates_ignore_extra_digits (mkBitString [1; 0])
                         [mkBitString [0; 1; 1; 1]; mkBitString [1; 1; 0]]
                         H))).
Defined.

(** ** Well-formed reports *)

Lemma count_ones_Permutation (rs rs' : list BitString) (i : nat) :
  Permutation rs rs' -> count_ones rs i = count_ones rs' i.
Proof.
  unfold count_ones, len. intros HP. f_equal.
  induction HP as [| x l l' _ IH | x y l | l l' l'' _ IH1 _ IH2]; cbn [filter].
  - reflexivity.
  - destruct (nth i (bits x) 0 =? 1); cbn [List.length]; lia.
  - destruct (nth i (bits x) 0 =? 1), (nth i (bits y) 0 =? 1);
      reflexivity.
  - lia.
Qed.

Lemma majority_bits_Permutation (rs rs' : list BitString) (L : nat) :
  Permutation rs rs' -> majority_bits rs L = majority_bits rs' L.
Proof.
  intros HP. unfold majority_bits. apply map_ext. intros i.
  unfold majority_digit.
  rewrite (count_ones_Permutation rs rs' i HP).
  unfold len. rewrite (Permutation_length HP). reflexivity.
Qed.

(** X11. The order of the records does not matter: two reports of records
    of one length made of binary digits, one a rearrangement of the other,
    have the same gamma rate, epsilon rate and power consumption. *)
Theorem rates_of_rearranged_records (rs rs' : list BitString) (L : nat) :
  rs <> [] -> records_of_length L rs -> binary_records rs ->
  Permutation rs rs' ->
  gamma_rate (mkDiagnosticReport rs) = gamma_rate (mkDiagnosticReport rs')
  /\ epsilon_rate (mkDiagnosticReport rs)
     = epsilon_rate (mkDiagnosticReport rs')
  /\ power_consumption (mkDiagnosticReport rs)
     = power_consumption (mkDiagnosticReport rs').
Proof.
  intros Hne Hlen Hbin HP.
  assert (Hne' : rs' <> [])
    by (intros ->; apply Permutation_sym, Permutation_nil in HP; contradiction).
  assert (Hlen' : records_of_length L rs')
    by (unfold records_of_length; rewrite <- HP; exact Hlen).
  assert (Hbin' : binary_records rs')
    by (unfold binary_records; rewrite <- HP; exact Hbin).
  assert (Hg : gamma_rate (mkDiagnosticReport rs)
               = gamma_rate (mkDiagnosticReport rs')).
  { rewrite (gamma_rate_report rs L Hne Hlen Hbin),
      (gamma_rate_report rs' L Hne' Hlen' Hbin'),
      (majority_bits_Permutation rs rs' L HP). reflexivity. }
  assert (He : epsilon_rate (mkDiagnosticReport rs)
               = epsilon_rate (mkDiagnosticReport rs')).
  { rewrite (epsilon_rate_report rs L Hne Hlen Hbin),
      (epsilon_rate_report rs' L Hne' Hlen' Hbin'),
      (majority_bits_Permutation rs rs' L HP). reflexivity. }
  repeat split; try assumption.
  unfold power_consumption. rewrite Hg, He. reflexivity.
Qed.

Lemma rates_of_rearranged_records_witness :
  (records tie_report <> []
   /\ records_of_length 2 (records tie_report)
   /\ binary_records (records tie_report)
   /\ Permutation (records tie_report) (rev (records tie_report)))
  /\ gamma_rate tie_report
     = gamma_rate (mkDiagnosticReport (rev (records tie_report))).
Proof.
  destruct tie_report_well_formed as [Hne [Hlen Hbin]].
  pose proof (Permutation_rev (records tie_report)) as HP.
  split; [repeat split; assumption |].
  exact (proj1 (rates_of_rearranged_records (records tie_report)
                  (rev (records tie_report)) 2%nat Hne Hlen Hbin HP)).
Defined.

Lemma map_nth_seq (l : list Z) :
  map (fun i => nth i l 0) (seq 0 (List.length l)) = l.
Proof.
  apply (nth_ext _ _ 0 0).
  - rewrite length_map, length_seq. reflexivity.
  - intros n Hn. rewrite length_map, length_seq in Hn.
    rewrite (nth_indep _ 0 (nth 0 l 0)) by (rewrite length_map, length_seq; exact Hn).
    rewrite (map_nth (fun i => nth i l 0)), seq_nth by exact Hn.
    reflexivity.
Qed.

Lemma count_ones_repeat (b : BitString) (n i : nat) :
  count_ones (repeat b n) i
  = if nth i (bits b) 0 =? 1 then Z.of_nat n else 0.
Proof.
  unfold count_ones, len. induction n as [| n IH]; cbn [repeat filter].
  - destruct (_ =? _); reflexivity.
  - destruct (nth i (bits b) 0 =? 1); cbn [List.length]; lia.
Qed.

Lemma majority_bits_repeat (b : BitString) (n : nat) :
  Forall is_bit (bits b) ->
  majority_bits (repeat b (S n)) (List.length (bits b)) = bits b.
Proof.
  intros Hb. unfold majority_bits.
  rewrite <- (map_nth_seq (bits b)) at 2. apply map_ext_in.
  intros i Hi. apply in_seq in Hi.
  unfold majority_digit. rewrite count_ones_repeat.
  unfold len. rewrite repeat_length.
  assert (Hd : is_bit (nth i (bits b) 0))
    by (rewrite Forall_forall in Hb; apply Hb, nth_In; lia).
  assert (Hhalf : Z.of_nat (S n) / 2 < Z.of_nat (S n))
    by (apply Z.div_lt; lia).
  destruct Hd as [-> | ->]; cbn [Z.eqb Pos.eqb].
  - destruct (Z.ltb_spec (Z.of_nat (S n) / 2) 0) as [Hlt | _];
      [| reflexivity].
    assert (0 <= Z.of_nat (S n) / 2) by (apply Z.div_pos; lia). lia.
  - destruct (Z.ltb_spec (Z.of_nat (S n) / 2) (Z.of_nat (S n))) as [_ | Hge];
      [reflexivity | lia].
Qed.

(** X12. A report of one or more copies of one record of binary digits has
    that record as its majority: its gamma rate is the value of the record
    and its epsilon rate is the value of the flipped record. *)
Theorem rates_of_unanimous_report (b : BitString) (n : nat) :
  Forall is_bit (bits b) ->
  gamma_rate (mkDiagnosticReport (repeat b (S n))) = __int__ b
  /\ epsilon_rate (mkDiagnosticReport (repeat b (S n)))
     = (flipped <- flip b ;; __int__ flipped).
Proof.
  intros Hb.
  assert (Hne : repeat b (S n) <> []) by discriminate.
  assert (Hlen : records_of_length (List.length (bits b)) (repeat b (S n))).
  { apply Forall_forall. intros r Hr. apply repeat_spec in Hr.
    rewrite Hr. reflexivity. }
  assert (Hbin : binary_records (repeat b (S n))).
  { apply Forall_forall. intros r Hr. apply repeat_spec in Hr.
    rewrite Hr. exact Hb. }
  rewrite (gamma_rate_report _ _ Hne Hlen Hbin),
    (epsilon_rate_report _ _ Hne Hlen Hbin),
    (majority_bits_repeat b n Hb).
  destruct b; split; reflexivity.
Qed.

Lemma rates_of_unanimous_report_witness :
  Forall is_bit (bits (mkBitString [1; 0; 1; 1; 0]))
  /\ gamma_rate (mkDiagnosticReport (repeat (mkBitString [1; 0; 1; 1; 0]) 3))
     = __int__ (mkBitString [1; 0; 1; 1; 0]).
Proof.
  assert (H : Forall is_bit (bits (mkBitString [1; 0; 1; 1; 0])))
    by (cbn; forall_bits).
  split; [exact H |].
  exact (proj1 (rates_of_unanimous_report (mkBitString [1; 0; 1; 1; 0])
                  2%nat H)).
Defined.

(** X13. For a report of a non-empty collection of records of one length
    [L >= 1] made of binary digits, the gamma rate and the epsilon rate lie
    between 0 and [2 ^ L - 1], and the power consumption lies between 0 and
    a quarter of the square of [2 ^ L - 1]. *)
Theorem rates_bounds (rs : list BitString) (L : nat) :
  rs <> [] -> (1 <= L)%nat -> records_of_length L rs -> binary_records rs ->
  exists g e p : Z,
    gamma_rate (mkDiagnosticReport rs) = Ok g
    /\ epsilon_rate (mkDiagnosticReport rs) = Ok e
    /\ power_consumption (mkDiagnosticReport rs) = Ok p
    /\ 0 <= g <= 2 ^ Z.of_nat L - 1
    /\ 0 <= e <= 2 ^ Z.of_nat L - 1
    /\ 0 <= p
    /\ 4 * p <= (2 ^ Z.of_nat L - 1) ^ 2.
Proof.
  intros Hne HL Hlen Hbin.
  pose proof (gamma_rate_value rs L Hne Hlen Hbin HL) as Hg.
  pose proof (epsilon_rate_value rs L Hne Hlen Hbin HL) as He.
  pose proof (unsigned_value_flip _ (Forall_is_bit_majority rs L)) as Hsum.
  pose proof (unsigned_value_bounds _ (Forall_is_bit_majority rs L)) as Bg.
  pose proof (unsigned_value_bounds _
                (Forall_is_bit_flip (majority_bits rs L))) as Be.
  rewrite len_majority_bits in Hsum, Bg.
  replace (len (map flip_digit (majority_bits rs L))) with (Z.of_nat L) in Be
    by (unfold len; rewrite length_map, length_majority_bits; reflexivity).
  set (g := unsigned_value (majority_bits rs L)) in *.
  set (e := unsigned_value (map flip_digit (majority_bits rs L))) in *.
  set (M := 2 ^ Z.of_nat L) in *.
  exists g, e, (g * e).
  split; [exact Hg | split; [exact He | split]].
  - unfold power_consumption. rewrite Hg, He. reflexivity.
  - repeat split; try lia; try nia.
    replace e with (M - 1 - g) by lia.
    rewrite Z.pow_2_r.
    assert (E : (M - 1) * (M - 1) - 4 * (g * (M - 1 - g))
                = (M - 1 - 2 * g) * (M - 1 - 2 * g)) by ring.
    pose proof (Z.square_nonneg (M - 1 - 2 * g)). lia.
Qed.

Lemma rates_bounds_witness :
  (records example_report <> []
   /\ (1 <= 5)%nat
   /\ records_of_length 5 (records example_report)
   /\ binary_records (records example_report))
  /\ exists g e p : Z,
      gamma_rate example_report = Ok g
      /\ epsilon_rate example_report = Ok e
      /\ power_consumption example_report = Ok p
      /\ 0 <= g <= 2 ^ Z.of_nat 5 - 1
      /\ 0 <= e <= 2 ^ Z.of_nat 5 - 1
      /\ 0 <= p
      /\ 4 * p <= (2 ^ Z.of_nat 5 - 1) ^ 2.
Proof.
  destruct example_report_well_formed as [Hne [Hlen Hbin]].
  split; [repeat split; try assumption; lia |].
  apply (rates_bounds (records example_report) 5%nat);
    try assumption; lia.
Defined.

(** ** Reading the input of day 3 *)

Lemma linebreak_isspace (c : ascii) : isspace c = false -> linebreak c = false.
Proof.
  unfold isspace, linebreak. generalize (code c). intros n H.
  apply orb_false_iff in H. destruct H as [H H160].
  apply orb_false_iff in H. destruct H as [H H133].
  apply orb_false_iff in H. destruct H as [H1 H2].
  rewrite H133, orb_false_r. apply orb_false_iff. split.
  - apply andb_false_iff in H1. apply andb_false_iff.
    destruct H1 as [H1 | H1]; [left | right]; [| exact H1].
    apply Z.leb_gt in H1. apply Z.leb_gt. lia.
  - apply andb_false_iff in H2. apply andb_false_iff.
    destruct H2 as [H2 | H2]; [left; exact H2 | right].
    apply Z.leb_gt in H2. apply Z.leb_gt. lia.
Qed.

Lemma lstrip_all_space (space : ascii -> bool) (s : str) :
  Forall (fun c => space c = true) s -> lstrip space s = [].
Proof. induction 1 as [| c t Hc _ IH]; simpl; [| rewrite Hc]; auto. Qed.

Lemma strip_all_space (space : ascii -> bool) (s : str) :
  Forall (fun c => space c = true) s -> strip space s = [].
Proof.
  intros H. unfold strip. rewrite (lstrip_all_space space s H). reflexivity.
Qed.

Lemma rstrip_last (space : ascii -> bool) (t : str) (c : ascii) :
  space c = false -> rstrip space (t ++ [c]) = t ++ [c].
Proof.
  intros Hc. unfold rstrip. rewrite rev_app_distr. simpl.
  rewrite Hc. simpl. rewrite rev_involutive. reflexivity.
Qed.

(** A text between two characters that are not white space is left as it
    is by [strip]. *)
Lemma strip_between (space : ascii -> bool) (s t : str) (c c' : ascii) :
  space c = false -> space c' = false ->
  s = c :: t -> (exists u, s = u ++ [c']) -> strip space s = s.
Proof.
  intros Hc Hc' Hs [u Hu]. unfold strip.
  assert (E : lstrip space s = s) by (rewrite Hs; simpl; rewrite Hc; reflexivity).
  rewrite E, Hu. apply rstrip_last, Hc'.
Qed.

Lemma join_with_cons (sep p : str) (q : str) (rest : list str) :
  join_with sep (p :: q :: rest) = p ++ sep ++ join_with sep (q :: rest).
Proof. reflexivity. Qed.

Lemma join_with_head (sep : str) (lines : list str) (c : ascii) (t : str)
  (rest : list str) :
  lines = (c :: t) :: rest ->
  exists t', join_with sep lines = c :: t'.
Proof.
  intros ->. destruct rest as [| q rest'].
  - exists t. reflexivity.
  - rewrite join_with_cons. eexists. reflexivity.
Qed.

Lemma join_with_last (sep : str) (P : ascii -> Prop) (lines : list str) :
  lines <> [] ->
  Forall (fun line => line <> [] /\ Forall P line) lines ->
  exists u c, join_with sep lines = u ++ [c] /\ P c.
Proof.
  intros Hne Hall. induction Hall as [| p rest [Hp HP] Hrest IH];
    [contradiction |].
  destruct rest as [| q rest'].
  - destruct (exists_last Hp) as [u [c E]]. exists u, c.
    split; [exact E |]. rewrite E in HP.
    apply Forall_app in HP. destruct HP as [_ HP].
    inversion HP; assumption.
  - destruct IH as [u [c [E Hc]]]; [discriminate |].
    exists (p ++ sep ++ u), c. split; [| exact Hc].
    rewrite join_with_cons, <- !app_assoc. do 2 f_equal. exact E.
Qed.

Lemma splitlines_from_line (line : str) :
  Forall (fun c => linebreak c = false) line ->
  forall (acc rest : str),
    splitlines_from acc (line ++ rest)
    = splitlines_from (rev line ++ acc) rest.
Proof.
  induction 1 as [| c t Hc _ IH]; intros acc rest.
  - reflexivity.
  - cbn [app splitlines_from rev]. rewrite Hc, IH, <- app_assoc.
    reflexivity.
Qed.

(** The lines of a text made of non-empty lines without line boundaries,
    joined by line feeds, are those lines. *)
Lemma splitlines_join_with (lines : list str) :
  Forall (fun line => line <> []
                      /\ Forall (fun c => linebreak c = false) line) lines ->
  splitlines (join_with [LF] lines) = lines.
Proof.
  unfold splitlines.
  induction 1 as [| p rest [Hp HP] Hrest IH]; [reflexivity |].
  destruct rest as [| q rest'].
  - cbn [join_with]. rewrite <- (app_nil_r p) at 1.
    rewrite (splitlines_from_line p HP), app_nil_r. cbn [splitlines_from].
    destruct (rev p) eqn:E.
    + apply (f_equal (@rev ascii)) in E. rewrite rev_involutive in E.
      contradiction.
    + rewrite <- E, rev_involutive. reflexivity.
  - rewrite join_with_cons, (splitlines_from_line p HP), app_nil_r.
    inversion Hrest as [| ? ? [Hq HQ] _]; subst.
    destruct q as [| c t]; [contradiction |].
    destruct (join_with_head [LF] ((c :: t) :: rest') c t rest' eq_refl)
      as [t' E].
    rewrite E in *. cbn [app splitlines_from].
    change (linebreak LF) with true. cbv iota.
    change (Ascii.eqb LF "013") with false. cbn [andb].
    unfold str in *. rewrite E, rev_involutive, IH. reflexivity.
Qed.

Lemma comprehension_map_Ok {A B : Type} (f : B -> result A) (h : A -> B)
  (l : list A) :
  (forall x, In x l -> f (h x) = Ok x) ->
  comprehension f (map h l) = Ok l.
Proof.
  intros H. induction l as [| x t IH]; cbn [map comprehension].
  - reflexivity.
  - rewrite (H x (or_introl eq_refl)). cbn [bind].
    rewrite IH by (intros y Hy; apply H; right; exact Hy). reflexivity.
Qed.

Lemma isspace_decimal_char (d : Z) :
  is_decimal d -> isspace (decimal_char d) = false.
Proof. intros H. decimal_cases H d; reflexivity. Qed.

(** X14. Writing and reading back: the text of records that have at least
    one digit each, all digits between 0 and 9, printed by [__repr__] and
    joined by line feeds, is read by [parse_input] as those records, in
    order. *)
Theorem parse_input_round_trip (rs : list BitString) :
  Forall (fun r => bits r <> [] /\ Forall is_decimal (bits r)) rs ->
  parse_input (join_with [LF] (map __repr__ rs)) = Ok rs.
Proof.
  intros Hrs.
  assert (Hlines : Forall (fun line => line <> []
                              /\ Forall (fun c => isspace c = false) line)
                     (map __repr__ rs)).
  { apply Forall_map. eapply Forall_impl; [| exact Hrs].
    intros [bs] [Hne Hdec]. cbn [bits] in *. rewrite (repr_decimal bs Hdec).
    split.
    - intros E. apply map_eq_nil in E. contradiction.
    - apply Forall_map. eapply Forall_impl; [| exact Hdec].
      apply isspace_decimal_char. }
  unfold parse_input.
  assert (Hstrip : strip isspace (join_with [LF] (map __repr__ rs))
                   = join_with [LF] (map __repr__ rs)).
  { destruct (map __repr__ rs) as [| p rest] eqn:E; [reflexivity |].
    destruct (join_with_last [LF] (fun c => isspace c = false) (p :: rest))
      as [u [c' [Eu Hc']]]; [discriminate | exact Hlines |].
    inversion Hlines as [| ? ? [Hp HP] _]; subst.
    destruct p as [| c t]; [contradiction |].
    destruct (join_with_head [LF] ((c :: t) :: rest) c t rest eq_refl)
      as [t' Et].
    apply (strip_between isspace _ t' c c'); try assumption.
    - inversion HP; assumption.
    - exists u. exact Eu. }
  rewrite Hstrip, splitlines_join_with.
  - apply comprehension_map_Ok. intros r Hr.
    rewrite Forall_forall in Hrs. destruct (Hrs r Hr) as [_ Hdec].
    rewrite strip_no_space.
    + apply from_str_repr_round_trip, Hdec.
    + destruct r as [bs]. cbn [bits] in Hdec. rewrite (repr_decimal bs Hdec).
      apply Forall_map. eapply Forall_impl; [| exact Hdec].
      apply isspace_decimal_char.
  - eapply Forall_impl; [| exact Hlines].
    intros line [Hne Hsp]. split; [exact Hne |].
    eapply Forall_impl; [| exact Hsp]. apply linebreak_isspace.
Qed.

Lemma parse_input_round_trip_witness :
  Forall (fun r => bits r <> [] /\ Forall is_decimal (bits r))
    (records tie_report)
  /\ parse_input (lit "10" ++ LF :: lit "01") = Ok (records tie_report).
Proof.
  assert (H : Forall (fun r => bits r <> [] /\ Forall is_decimal (bits r))
                (records tie_report)).
  { cbn. unfold is_decimal.
    repeat constructor; try discriminate; lia. }
  split; [exact H |].
  exact (parse_input_round_trip (records tie_report) H).
Defined.

(** X15. An input of white space only, the empty input among them, has no
    record: [parse_input] returns the empty list, and the power consumption
    of the report made of it raises [IndexError]. *)
Theorem parse_input_blank (input_string : str) :
  Forall (fun c => isspace c = true) input_string ->
  parse_input input_string = Ok []
  /\ (report <- report_of_input input_string ;; power_consumption report)
     = Raise IndexError.
Proof.
  intros H.
  assert (E : parse_input input_string = Ok []).
  { unfold parse_input. rewrite (strip_all_space isspace _ H). reflexivity. }
  split; [exact E |].
  unfold report_of_input. rewrite E. reflexivity.
Qed.

Lemma parse_input_blank_witness :
  Forall (fun c => isspace c = true) (LF :: lit "   " ++ [LF])
  /\ parse_input (LF :: lit "   " ++ [LF]) = Ok [].
Proof.
  assert (H : Forall (fun c => isspace c = true) (LF :: lit "   " ++ [LF]))
    by (repeat constructor).
  split; [exact H |].
  exact (proj1 (parse_input_blank (LF :: lit "   " ++ [LF]) H)).
Defined.

(** * Further properties of [day2.py] *)

Lemma process_all_cons {S : Type} `{SubmarineClass S}
  (s : S) (i : Instruction) (rest : list Instruction) :
  process_all s (i :: rest) = process_all (process_instruction s i) rest.
Proof. reflexivity. Qed.

Lemma process_all_app {S : Type} `{SubmarineClass S}
  (s : S) (l1 l2 : list Instruction) :
  process_all s (l1 ++ l2) = process_all (process_all s l1) l2.
Proof. apply fold_left_app. Qed.

(** X16. The clamps keep the depth from going negative under weaker
    conditions than non-negative values: the depth of an [AimSubmarine] is
    at least 0 after every instruction whatever the values are, and the
    depth of a plain [Submarine] is at least 0 after every instruction as
    soon as the values of the [DOWN] instructions are non-negative.  A
    [DOWN] of a negative value does take a new plain submarine below 0. *)
Theorem depth_clamps (instructions : list Instruction) (k : nat) :
  0 <= depth (process_all new_AimSubmarine (firstn k instructions))
  /\ (Forall (fun i => instruction_type i = DOWN -> 0 <= value i)
        instructions ->
      0 <= depth (process_all new_Submarine (firstn k instructions)))
  /\ (forall v : Z,
         v < 0 ->
         depth (process_all new_Submarine [mkInstruction DOWN v]) < 0).
Proof.
  split; [| split].
  - apply (process_all_prefix_invariant (fun s : AimSubmarine => 0 <= depth s)
             (fun _ => True) (fun s i _ => AimSubmarine_step s i)).
    + apply Forall_forall. intros; exact I.
    + cbn. lia.
  - intros Hall.
    apply (process_all_prefix_invariant (fun s : Submarine => 0 <= depth s)
             (fun i => instruction_type i = DOWN -> 0 <= value i)).
    + intros [p d] [[] v] Hv Hd; cbn in *; try lia.
      specialize (Hv eq_refl). lia.
    + exact Hall.
    + cbn. lia.
  - intros v Hv. cbn. lia.
Qed.

Lemma depth_clamps_witness :
  Forall (fun i => instruction_type i = DOWN -> 0 <= value i)
    [mkInstruction UP (-4); mkInstruction DOWN 3; mkInstruction FORWARD (-2)]
  /\ 0 <= depth (process_all new_Submarine
                   (firstn 3 [mkInstruction UP (-4); mkInstruction DOWN 3;
                              mkInstruction FORWARD (-2)])).
Proof.
  assert (H : Forall (fun i => instruction_type i = DOWN -> 0 <= value i)
                [mkInstruction UP (-4); mkInstruction DOWN 3;
                 mkInstruction FORWARD (-2)])
    by (repeat constructor; cbn; intros; try discriminate; lia).
  split; [exact H |].
  exact (proj1 (proj2 (depth_clamps
                         [mkInstruction UP (-4); mkInstruction DOWN 3;
                          mkInstruction FORWARD (-2)] 3%nat)) H).
Defined.

Lemma Submarine_position_from (l : list Instruction) :
  forall s : Submarine,
    position (process_all s l) = position s + total FORWARD l.
Proof.
  induction l as [| [[] v] rest IH]; intros [p d];
    [cbn; lia | rewrite process_all_cons, IH; cbn; lia ..].
Qed.

Lemma AimSubmarine_position_from (l : list Instruction) :
  forall s : AimSubmarine,
    position (process_all s l) = position s + total FORWARD l
    /\ aim (process_all s l) = aim s + total DOWN l - total UP l.
Proof.
  induction l as [| [[] v] rest IH]; intros [p d a];
    [cbn; lia | | |]; rewrite process_all_cons;
    match goal with
    | |- context [process_all ?s rest] => destruct (IH s) as [-> ->]
    end; cbn; lia.
Qed.

(** X17. Closed forms: whatever the values are, the position of a new
    submarine of either class after a list of instructions is the sum of
    the values of its [FORWARD] instructions, and the aim of a new
    [AimSubmarine] is the sum of the [DOWN] values minus the sum of the
    [UP] values. *)
Theorem position_and_aim_totals (instructions : list Instruction) :
  position (process_all new_Submarine instructions)
  = total FORWARD instructions
  /\ position (process_all new_AimSubmarine instructions)
     = total FORWARD instructions
  /\ aim (process_all new_AimSubmarine instructions)
     = total DOWN instructions - total UP instructions.
Proof.
  rewrite Submarine_position_from.
  destruct (AimSubmarine_position_from instructions new_AimSubmarine)
    as [-> ->].
  cbn. repeat split; lia.
Qed.

Lemma depth_above_aim_from (l : list Instruction) :
  forall (s : Submarine) (a : AimSubmarine),
    aim a <= depth s ->
    aim (process_all a l) <= depth (process_all s l).
Proof.
  induction l as [| [[] v] rest IH]; intros [p d] [p' d' a'] H;
    [exact H | rewrite !process_all_cons; apply IH; cbn in *; lia ..].
Qed.

(** X18. On the same instructions, whatever the values are, the depth a
    plain [Submarine] ends at is at least the aim an [AimSubmarine] ends
    with, and the two end at the same position. *)
Theorem plain_depth_above_aim (instructions : list Instruction) :
  aim (process_all new_AimSubmarine instructions)
  <= depth (process_all new_Submarine instructions)
  /\ position (process_all new_AimSubmarine instructions)
     = position (process_all new_Submarine instructions).
Proof.
  split.
  - apply depth_above_aim_from. cbn. lia.
  - destruct (position_and_aim_totals instructions) as [-> [-> _]].
    reflexivity.
Qed.

(** X19. When the aim of the [AimSubmarine] is at least 0 after every
    instruction, no [UP] of the plain [Submarine] is clamped, and the depth
    the plain submarine ends at is the aim the [AimSubmarine] ends with:
    the sum of the [DOWN] values minus the sum of the [UP] values.  The
    norm of the plain submarine is then the sum of the [FORWARD] values
    times that difference. *)
Theorem plain_depth_is_aim (instructions : list Instruction) :
  (forall k : nat,
      0 <= aim (process_all new_AimSubmarine (firstn k instructions))) ->
  depth (process_all new_Submarine instructions)
  = aim (process_all new_AimSubmarine instructions)
  /\ depth (process_all new_Submarine instructions)
     = total DOWN instructions - total UP instructions
  /\ calculate_submarine_norm new_Submarine instructions
     = total FORWARD instructions
       * (total DOWN instructions - total UP instructions).
Proof.
  intros Hk.
  assert (E : depth (process_all new_Submarine instructions)
              = aim (process_all new_AimSubmarine instructions)).
  { induction instructions as [| i l IH] using rev_ind; [reflexivity |].
    assert (Hl : forall k : nat,
               0 <= aim (process_all new_AimSubmarine (firstn k l))).
    { intros k. destruct (Nat.le_gt_cases k (List.length l)) as [Hle | Hgt].
      - specialize (Hk k). rewrite firstn_app in Hk.
        replace (k - List.length l)%nat with 0%nat in Hk by lia.
        cbn [firstn] in Hk. rewrite app_nil_r in Hk. exact Hk.
      - rewrite firstn_all2 by lia.
        specialize (Hk (List.length l)). rewrite firstn_app in Hk.
        rewrite Nat.sub_diag, firstn_all in Hk.
        cbn [firstn] in Hk. rewrite app_nil_r in Hk. exact Hk. }
    specialize (IH Hl).
    specialize (Hk (List.length (l ++ [i]))). rewrite firstn_all in Hk.
    rewrite !process_all_app in *.
    destruct (process_all new_Submarine l) as [p d].
    destruct (process_all new_AimSubmarine l) as [p' d' a'].
    destruct i as [[] v]; cbn in *; lia. }
  destruct (position_and_aim_totals instructions) as [Hp [_ Ha]].
  split; [exact E | split; [rewrite E; exact Ha |]].
  unfold calculate_submarine_norm, calculate_norm.
  rewrite Hp, E, Ha. reflexivity.
Qed.

Lemma plain_depth_is_aim_witness :
  0 <= aim (process_all new_AimSubmarine (firstn 4 example_instructions))
  /\ depth (process_all new_Submarine example_instructions)
     = aim (process_all new_AimSubmarine example_instructions).
Proof.
  assert (H : forall k : nat,
             0 <= aim (process_all new_AimSubmarine
                         (firstn k example_instructions))).
  { intros k. do 7 (destruct k as [| k]; [cbn; lia |]). cbn. lia. }
  split; [exact (H 4%nat) |].
  exact (proj1 (plain_depth_is_aim example_instructions H)).
Defined.

(** * Decimal notation: [int(str(n))] is [n] *)

Lemma digits_step (k acc : Z) (after_digit : bool) (t : str) :
  is_decimal k ->
  digits 10 acc after_digit (decimal_char k :: t)
  = digits 10 (acc * 10 + k) true t.
Proof. intros H. decimal_cases H k; reflexivity. Qed.

Ltac uint_step :=
  match goal with
  | |- context [uint_chars (?D ?l)] =>
      match D with
      | Decimal.D0 => change (uint_chars (D l)) with (decimal_char 0 :: uint_chars l)
      | Decimal.D1 => change (uint_chars (D l)) with (decimal_char 1 :: uint_chars l)
      | Decimal.D2 => change (uint_chars (D l)) with (decimal_char 2 :: uint_chars l)
      | Decimal.D3 => change (uint_chars (D l)) with (decimal_char 3 :: uint_chars l)
      | Decimal.D4 => change (uint_chars (D l)) with (decimal_char 4 :: uint_chars l)
      | Decimal.D5 => change (uint_chars (D l)) with (decimal_char 5 :: uint_chars l)
      | Decimal.D6 => change (uint_chars (D l)) with (decimal_char 6 :: uint_chars l)
      | Decimal.D7 => change (uint_chars (D l)) with (decimal_char 7 :: uint_chars l)
      | Decimal.D8 => change (uint_chars (D l)) with (decimal_char 8 :: uint_chars l)
      | Decimal.D9 => change (uint_chars (D l)) with (decimal_char 9 :: uint_chars l)
      end
  end.

Lemma digits_uint_acc (d : Decimal.uint) :
  forall acc : positive,
    digits 10 (Zpos acc) true (uint_chars d)
    = Some (Zpos (Pos.of_uint_acc d acc)).
Proof.
  induction d as [| l IH | l IH | l IH | l IH | l IH | l IH | l IH | l IH
                  | l IH | l IH]; intros acc;
    [reflexivity | ..];
    uint_step; rewrite digits_step by (unfold is_decimal; lia);
    cbn [Pos.of_uint_acc]; rewrite <- IH; f_equal; lia.
Qed.

Lemma digits_uint (d : Decimal.uint) (after_digit : bool) :
  d <> Decimal.Nil ->
  digits 10 0 after_digit (uint_chars d) = Some (Z.of_N (Pos.of_uint d)).
Proof.
  revert after_digit.
  induction d as [| l IH | l IH | l IH | l IH | l IH | l IH | l IH | l IH
                  | l IH | l IH]; intros after_digit Hne;
    [contradiction | ..];
    uint_step; rewrite digits_step by (unfold is_decimal; lia);
    cbn [Pos.of_uint Z.mul Z.add];
    try (rewrite digits_uint_acc; reflexivity).
  destruct l; [reflexivity | apply IH; discriminate ..].
Qed.

Lemma uint_chars_plain (d : Decimal.uint) :
  Forall (fun c => isspace c = false /\ int_space c = false
                   /\ In c decimal_digits) (uint_chars d).
Proof.
  induction d; [constructor | ..]; uint_step; constructor; try exact IHd;
    (split; [reflexivity | split; [reflexivity |]]); cbn; auto 12.
Qed.

Lemma skip_prefix_10 (s : str) : skip_prefix 10 s = s.
Proof.
  destruct s as [| a [| c t]]; try reflexivity;
    destruct a as [[] [] [] [] [] [] [] []]; reflexivity.
Qed.

Lemma str_int_pos (p : positive) : str_int (Zpos p) = uint_chars (Pos.to_uint p).
Proof.
  unfold str_int, uint_chars. cbn [Z.to_int NilZero.string_of_int].
  unfold NilZero.string_of_uint.
  pose proof (Unsigned.to_uint_nonnil p) as Hne.
  destruct (Pos.to_uint p); [contradiction | reflexivity ..].
Qed.

Lemma str_int_neg (p : positive) :
  str_int (Zneg p) = "-" :: uint_chars (Pos.to_uint p).
Proof.
  unfold str_int, uint_chars. cbn [Z.to_int NilZero.string_of_int].
  unfold NilZero.string_of_uint.
  pose proof (Unsigned.to_uint_nonnil p) as Hne.
  destruct (Pos.to_uint p); [contradiction | reflexivity ..].
Qed.

Lemma count_digits_uint (d : Decimal.uint) :
  count_digits (uint_chars d) = len (uint_chars d).
Proof.
  unfold count_digits. f_equal.
  pose proof (uint_chars_plain d) as Hp.
  induction Hp as [| c t [_ [_ Hc]] _ IH]; [reflexivity |].
  cbn [filter].
  assert (E : Ascii.eqb c "_" = false).
  { unfold decimal_digits in Hc. cbn in Hc.
    repeat (destruct Hc as [<- | Hc]; [reflexivity |]). destruct Hc. }
  rewrite E. cbn [negb]. rewrite IH. reflexivity.
Qed.

(** Reading a decimal number, with and without a minus sign: the number
    when it has no more digits than the limit, [ValueError] otherwise. *)
Lemma int_uint_chars (d : Decimal.uint) :
  d <> Decimal.Nil ->
  int (uint_chars d) 10
  = (if int_max_str_digits <? len (uint_chars d) then Raise ValueError
     else Ok (Z.of_N (Pos.of_uint d)))
  /\ int ("-" :: uint_chars d) 10
     = (if int_max_str_digits <? len (uint_chars d) then Raise ValueError
        else Ok (- Z.of_N (Pos.of_uint d))).
Proof.
  intros Hne. pose proof (uint_chars_plain d) as Hp.
  assert (Hsp : Forall (fun c => int_space c = false) (uint_chars d))
    by (eapply Forall_impl; [| exact Hp]; intros c H; apply H).
  assert (Hsign : split_sign (uint_chars d) = (1, uint_chars d)).
  { destruct d; [contradiction | reflexivity ..]. }
  unfold int. cbv zeta.
  change (negb (power_of_two_base 10)) with true. cbn [andb].
  split.
  - rewrite (strip_no_space _ _ Hsp), Hsign, skip_prefix_10,
      (digits_uint d false Hne), count_digits_uint.
    destruct (_ <? _); [reflexivity | f_equal; lia].
  - rewrite strip_no_space by (constructor; [reflexivity | exact Hsp]).
    cbn [split_sign]. rewrite skip_prefix_10, (digits_uint d false Hne),
      count_digits_uint.
    destruct (_ <? _); [reflexivity | f_equal; lia].
Qed.

Lemma decimal_length_pos (p : positive) :
  decimal_length (Zpos p) = len (uint_chars (Pos.to_uint p))
  /\ decimal_length (Zneg p) = len (uint_chars (Pos.to_uint p)).
Proof.
  unfold decimal_length. cbn [Z.abs]. rewrite str_int_pos. split; reflexivity.
Qed.

(** Reading the decimal notation of an integer gives the integer, when it
    has no more digits than the limit, and raises [ValueError] when it has
    more. *)
Lemma int_str_int (n : Z) :
  int (str_int n) 10
  = if int_max_str_digits <? decimal_length n then Raise ValueError
    else Ok n.
Proof.
  destruct n as [| p | p].
  - reflexivity.
  - destruct (decimal_length_pos p) as [-> _]. rewrite str_int_pos.
    destruct (int_uint_chars _ (Unsigned.to_uint_nonnil p)) as [-> _].
    rewrite Unsigned.of_to. reflexivity.
  - destruct (decimal_length_pos p) as [_ ->]. rewrite str_int_neg.
    destruct (int_uint_chars _ (Unsigned.to_uint_nonnil p)) as [_ ->].
    rewrite Unsigned.of_to. reflexivity.
Qed.

Lemma int_str_int_short (n : Z) :
  decimal_length n <= int_max_str_digits -> int (str_int n) 10 = Ok n.
Proof.
  intros H. rewrite int_str_int.
  destruct (Z.ltb_spec int_max_str_digits (decimal_length n));
    [lia | reflexivity].
Qed.

Lemma int_str_int_long (n : Z) :
  int_max_str_digits < decimal_length n ->
  int (str_int n) 10 = Raise ValueError.
Proof.
  intros H. rewrite int_str_int.
  destruct (Z.ltb_spec int_max_str_digits (decimal_length n));
    [reflexivity | lia].
Qed.

(** The decimal notation of an integer is not empty and has no white
    space in it. *)
Lemma str_int_plain (n : Z) :
  str_int n <> [] /\ Forall (fun c => isspace c = false) (str_int n).
Proof.
  assert (H : forall d, d <> Decimal.Nil ->
                        uint_chars d <> []
                        /\ Forall (fun c => isspace c = false) (uint_chars d)).
  { intros d Hne. split.
    - destruct d; [contradiction | discriminate ..].
    - pose proof (uint_chars_plain d) as Hp.
      eapply Forall_impl; [| exact Hp]. intros c Hc; apply Hc. }
  destruct n as [| p | p].
  - split; [discriminate | repeat constructor].
  - rewrite str_int_pos. apply H, Unsigned.to_uint_nonnil.
  - rewrite str_int_neg.
    destruct (H _ (Unsigned.to_uint_nonnil p)) as [_ Hp].
    split; [discriminate | constructor; [reflexivity | exact Hp]].
Qed.

(** * Properties of [day1.py] *)

Lemma sum_from (l : list Z) (start : Z) :
  fold_left Z.add l start = start + sum l.
Proof.
  unfold sum. revert start. induction l as [| x t IH]; intros start; simpl.
  - lia.
  - rewrite (IH (start + x)), (IH x). lia.
Qed.

Lemma sum_cons (x : Z) (l : list Z) : sum (x :: l) = x + sum l.
Proof. unfold sum at 1. simpl. apply sum_from. Qed.

Lemma count_gaps_increases (l : list Z) :
  Day1.count_increases l = count_gaps 1 l.
Proof. reflexivity. Qed.

Lemma count_increases_cons (x y : Z) (t : list Z) :
  Day1.count_increases (x :: y :: t)
  = Z.b2z (y >? x) + Day1.count_increases (y :: t).
Proof.
  unfold Day1.count_increases. cbn [skipn combine map fst snd].
  apply sum_cons.
Qed.

Lemma count_gaps_bounds (k : nat) (l : list Z) :
  0 <= count_gaps k l <= Z.max 0 (len l - Z.of_nat k).
Proof.
  unfold count_gaps.
  assert (H : forall ps : list (Z * Z),
             0 <= sum (map (fun pair => Z.b2z (snd pair >? fst pair)) ps)
             <= len ps).
  { induction ps as [| p t IH]; [cbn; lia |].
    cbn [map]. rewrite sum_cons.
    replace (len (p :: t)) with (len t + 1)
      by (unfold len; cbn [List.length]; lia).
    destruct (snd p >? fst p); cbn [Z.b2z]; lia. }
  specialize (H (combine l (skipn k l))).
  unfold len in *. rewrite length_combine, length_skipn in H. lia.
Qed.

Lemma rolling_cons (a b c d : Z) (t : list Z) :
  Day1.count_rolling_increases (a :: b :: c :: d :: t)
  = Z.b2z (d >? a) + Day1.count_rolling_increases (b :: c :: d :: t).
Proof.
  unfold Day1.count_rolling_increases. cbn [skipn zip3 map].
  rewrite count_increases_cons. f_equal. f_equal.
  unfold sum. cbn [fold_left].
  destruct (Z.gtb_spec (0 + b + c + d) (0 + a + b + c)),
    (Z.gtb_spec d a); try reflexivity; lia.
Qed.

Lemma count_gaps_3_cons (a b c d : Z) (t : list Z) :
  count_gaps 3 (a :: b :: c :: d :: t)
  = Z.b2z (d >? a) + count_gaps 3 (b :: c :: d :: t).
Proof.
  unfold count_gaps. cbn [skipn combine map fst snd]. apply sum_cons.
Qed.

(** X20. The sum of a window of three grows exactly when the measurement
    that enters is greater than the one that leaves: the count of rolling
    increases is the number of measurements greater than the measurement
    three places before. *)
Theorem rolling_increases_compare_three_apart (input_list : list Z) :
  Day1.count_rolling_increases input_list = count_gaps 3 input_list.
Proof.
  induction input_list as [| a l IH]; [reflexivity |].
  destruct l as [| b [| c [| d t]]]; try reflexivity.
  rewrite rolling_cons, count_gaps_3_cons, IH. reflexivity.
Qed.

(** X21. Both counts are bounded by the number of comparisons made: the
    count of increases lies between 0 and the length minus 1, the count of
    rolling increases between 0 and the length minus 3, and they are 0 on
    lists shorter than 2 and than 4 measurements. *)
Theorem counts_bounds (input_list : list Z) :
  0 <= Day1.count_increases input_list <= Z.max 0 (len input_list - 1)
  /\ 0 <= Day1.count_rolling_increases input_list
     <= Z.max 0 (len input_list - 3)
  /\ (len input_list <= 1 -> Day1.count_increases input_list = 0)
  /\ (len input_list <= 3 -> Day1.count_rolling_increases input_list = 0).
Proof.
  pose proof (count_gaps_bounds 1 input_list) as H1.
  pose proof (count_gaps_bounds 3 input_list) as H3.
  rewrite <- count_gaps_increases in H1.
  rewrite <- rolling_increases_compare_three_apart in H3.
  change (Z.of_nat 1) with 1 in H1. change (Z.of_nat 3) with 3 in H3.
  repeat split; try lia.
Qed.

Lemma counts_bounds_witness :
  len [5; 7; 9] <= 3
  /\ Day1.count_rolling_increases [5; 7; 9] = 0.
Proof.
  assert (H : len [5; 7; 9] <= 3) by (cbn; lia).
  split; [exact H |].
  exact (proj2 (proj2 (proj2 (counts_bounds [5; 7; 9]))) H).
Defined.

Lemma count_increases_tail_bounds (y : Z) (t : list Z) :
  0 <= Day1.count_increases (y :: t) <= len t.
Proof.
  pose proof (count_gaps_bounds 1 (y :: t)) as H.
  rewrite <- count_gaps_increases in H.
  unfold len in *. cbn [List.length] in H. lia.
Qed.

(** X22. The count of increases is 0 exactly when no measurement is
    greater than the one before it, and on a non-empty list it reaches the
    length minus 1 exactly when every measurement is greater than the one
    before it. *)
Theorem count_increases_extremes (input_list : list Z) :
  (Day1.count_increases input_list = 0 <-> Sorted Z.ge input_list)
  /\ (input_list <> [] ->
      (Day1.count_increases input_list = len input_list - 1
       <-> Sorted Z.lt input_list)).
Proof.
  split.
  - induction input_list as [| x l IH]; [split; [constructor | reflexivity] |].
    destruct l as [| y t].
    + split; [repeat constructor | reflexivity].
    + rewrite count_increases_cons.
      pose proof (count_increases_tail_bounds y t) as B.
      split.
      * intros H0.
        assert (Hb : (y >? x) = false)
          by (destruct (y >? x); [cbn [Z.b2z] in H0; lia | reflexivity]).
        rewrite Hb in H0. cbn [Z.b2z] in H0.
        constructor; [apply IH; lia |]. constructor.
        destruct (Z.gtb_spec y x); [discriminate | lia].
      * intros HS. apply Sorted_inv in HS. destruct HS as [HS HR].
        apply HdRel_inv in HR. apply IH in HS. rewrite HS.
        destruct (Z.gtb_spec y x); cbn [Z.b2z]; lia.
  - induction input_list as [| x l IH]; [contradiction |]. intros _.
    destruct l as [| y t].
    + split; [repeat constructor | reflexivity].
    + rewrite count_increases_cons.
      pose proof (count_increases_tail_bounds y t) as B.
      specialize (IH ltac:(discriminate)).
      replace (len (x :: y :: t) - 1) with (len t + 1)
        by (unfold len; cbn [List.length]; lia).
      replace (len (y :: t) - 1) with (len t) in IH
        by (unfold len; cbn [List.length]; lia).
      split.
      * intros H1.
        assert (Hb : (y >? x) = true)
          by (destruct (y >? x); [reflexivity | cbn [Z.b2z] in H1; lia]).
        rewrite Hb in H1. cbn [Z.b2z] in H1.
        constructor; [apply IH; lia |]. constructor.
        destruct (Z.gtb_spec y x); [lia | discriminate].
      * intros HS. apply Sorted_inv in HS. destruct HS as [HS HR].
        apply HdRel_inv in HR. apply IH in HS. rewrite HS.
        destruct (Z.gtb_spec y x); cbn [Z.b2z]; lia.
Qed.

Lemma count_increases_extremes_witness :
  [3; 5; 8] <> []
  /\ Sorted Z.lt [3; 5; 8]
  /\ Day1.count_increases [3; 5; 8] = len [3; 5; 8] - 1.
Proof.
  assert (Hne : [3; 5; 8] <> []) by discriminate.
  assert (HS : Sorted Z.lt [3; 5; 8]) by (repeat constructor).
  split; [exact Hne | split; [exact HS |]].
  exact (proj2 (proj2 (count_increases_extremes [3; 5; 8]) Hne) HS).
Defined.

(** X23. Counting in two parts: the count of increases of a list is the
    count up to and including any of its measurements plus the count from
    that measurement on. *)
Theorem count_increases_split (before : list Z) (x : Z) (after : list Z) :
  Day1.count_increases (before ++ x :: after)
  = Day1.count_increases (before ++ [x]) + Day1.count_increases (x :: after).
Proof.
  induction before as [| a l IH]; [reflexivity |].
  destruct l as [| b l'].
  - cbn [app]. rewrite !count_increases_cons.
    change (Day1.count_increases [x]) with 0. lia.
  - cbn [app] in *. rewrite !count_increases_cons, IH. lia.
Qed.

(** ** Reading the measurements *)

Lemma splitlines_from_LF (acc : str) (c : ascii) (rest : str) :
  splitlines_from acc (LF :: c :: rest)
  = rev acc :: splitlines_from [] (c :: rest).
Proof. reflexivity. Qed.

(** The lines of a text made of non-empty lines without line boundaries,
    joined by line feeds and followed by [tail]: those lines, and what
    [tail] adds once the last line is closed. *)
Lemma splitlines_join_with_tail (tail : str) (extra : list str)
  (lines : list str) :
  (forall acc : str, acc <> [] ->
                     splitlines_from acc tail = rev acc :: extra) ->
  lines <> [] ->
  Forall (fun line => line <> []
                      /\ Forall (fun c => linebreak c = false) line) lines ->
  splitlines (join_with [LF] lines ++ tail) = lines ++ extra.
Proof.
  unfold splitlines. intros Htail Hne Hall.
  induction Hall as [| p rest [Hp HP] Hrest IH]; [contradiction |].
  destruct rest as [| q rest'].
  - cbn [join_with app]. rewrite (splitlines_from_line p HP), app_nil_r.
    rewrite Htail.
    + rewrite rev_involutive. reflexivity.
    + intros E. apply (f_equal (@rev ascii)) in E.
      rewrite rev_involutive in E. contradiction.
  - rewrite join_with_cons, <- !app_assoc.
    rewrite (splitlines_from_line p HP), app_nil_r.
    inversion Hrest as [| ? ? [Hq HQ] _]; subst.
    destruct q as [| c t]; [contradiction |].
    destruct (join_with_head [LF] ((c :: t) :: rest') c t rest' eq_refl)
      as [t' E].
    specialize (IH ltac:(discriminate)).
    unfold str in *. rewrite E in *. cbn [app] in *.
    rewrite splitlines_from_LF, rev_involutive, IH. reflexivity.
Qed.

Lemma str_int_lines (l : list Z) :
  Forall (fun line => line <> []
                      /\ Forall (fun c => linebreak c = false) line)
    (map str_int l).
Proof.
  apply Forall_map, Forall_forall. intros n _.
  destruct (str_int_plain n) as [Hne Hsp]. split; [exact Hne |].
  eapply Forall_impl; [| exact Hsp]. apply linebreak_isspace.
Qed.

Lemma int_cases (s : str) (base : Z) :
  int s base = Raise ValueError \/ exists n, int s base = Ok n.
Proof.
  unfold int. destruct (split_sign _) as [sign body]. cbv zeta.
  destruct (digits _ _ _ _); [| left; reflexivity].
  destruct (_ && _); [left | right; eexists]; reflexivity.
Qed.

(** X24. Writing and reading back: the decimal notations of integers of at
    most 4300 digits each, negative ones among them, joined by line feeds,
    are read by day 1's [parse_input] as those integers; a line feed after
    the last number changes nothing, but a second one, an empty last line,
    raises [ValueError], since the input is not stripped.  A number of more
    than 4300 digits among them makes [parse_input] raise [ValueError]. *)
Theorem day1_parse_input_round_trip :
  (forall input_list : list Z,
      Forall (fun n => decimal_length n <= int_max_str_digits) input_list ->
      Day1.parse_input (join_with [LF] (map str_int input_list))
      = Ok input_list
      /\ (input_list <> [] ->
          Day1.parse_input (join_with [LF] (map str_int input_list) ++ [LF])
          = Ok input_list
          /\ Day1.parse_input
               (join_with [LF] (map str_int input_list) ++ [LF; LF])
             = Raise ValueError))
  /\ (forall input_list : list Z,
         Exists (fun n => int_max_str_digits < decimal_length n) input_list ->
         Day1.parse_input (join_with [LF] (map str_int input_list))
         = Raise ValueError).
Proof.
  split.
  - intros input_list Hshort.
    pose proof (str_int_lines input_list) as Hlines.
    assert (Hread : comprehension (fun value => int value 10)
                      (map str_int input_list) = Ok input_list).
    { apply comprehension_map_Ok. intros n Hn. apply int_str_int_short.
      rewrite Forall_forall in Hshort. apply Hshort, Hn. }
    split.
    + unfold Day1.parse_input.
      rewrite (splitlines_join_with _ Hlines). exact Hread.
    + intros Hne.
      assert (Hne' : map str_int input_list <> [])
        by (intros E; apply map_eq_nil in E; contradiction).
      split; unfold Day1.parse_input.
      * rewrite (splitlines_join_with_tail [LF] [] _); try assumption.
        -- rewrite app_nil_r. exact Hread.
        -- intros acc _. reflexivity.
      * rewrite (splitlines_join_with_tail [LF; LF] [[]] _); try assumption.
        -- apply comprehension_Raise.
           ++ intros x _. apply int_cases.
           ++ exists []. split; [apply in_or_app; right; left |]; reflexivity.
        -- intros acc _. reflexivity.
  - intros input_list Hlong. unfold Day1.parse_input.
    rewrite (splitlines_join_with _ (str_int_lines input_list)).
    apply comprehension_Raise.
    + intros x _. apply int_cases.
    + apply Exists_exists in Hlong. destruct Hlong as [n [Hn Hlen]].
      exists (str_int n). split; [apply in_map, Hn |].
      apply int_str_int_long, Hlen.
Qed.

Lemma day1_parse_input_round_trip_witness :
  (Forall (fun n => decimal_length n <= int_max_str_digits) [199; -7; 0]
   /\ [199; -7; 0] <> [])
  /\ Day1.parse_input (lit "199" ++ LF :: lit "-7" ++ LF :: lit "0" ++ [LF])
     = Ok [199; -7; 0].
Proof.
  assert (Hs : Forall (fun n => decimal_length n <= int_max_str_digits)
                 [199; -7; 0])
    by (repeat constructor; discriminate).
  assert (H : [199; -7; 0] <> []) by discriminate.
  split; [split; assumption |].
  exact (proj1 (proj2 (proj1 day1_parse_input_round_trip [199; -7; 0] Hs) H)).
Defined.

(** * Reading the instructions of day 2 *)

Lemma isspace_upper_char (c : ascii) : isspace (upper_char c) = isspace c.
Proof. destruct c as [[] [] [] [] [] [] [] []]; reflexivity. Qed.

Lemma member_member_name (t : InstructionType) :
  Day2Input.member (member_name t) = inr t.
Proof. destruct t; reflexivity. Qed.

(** A spelling of a member's name is not empty and has no white space. *)
Lemma spelling_plain (word : str) (t : InstructionType) :
  upper word = member_name t ->
  word <> [] /\ Forall (fun c => isspace c = false) word.
Proof.
  intros E. split.
  - intros ->. destruct t; discriminate.
  - apply Forall_forall. intros c Hc.
    rewrite <- isspace_upper_char.
    assert (Hin : In (upper_char c) (member_name t))
      by (rewrite <- E; apply in_map, Hc).
    assert (Hall : Forall (fun c => isspace c = false) (member_name t))
      by (destruct t; repeat constructor).
    rewrite Forall_forall in Hall. apply Hall, Hin.
Qed.

Lemma split_from_word (word : str) :
  Forall (fun c => isspace c = false) word ->
  forall (acc rest : str),
    split_from acc (word ++ rest) = split_from (rev word ++ acc) rest.
Proof.
  induction 1 as [| c t Hc _ IH]; intros acc rest.
  - reflexivity.
  - cbn [app split_from rev]. rewrite Hc, IH, <- app_assoc. reflexivity.
Qed.

Lemma split_from_blanks (gap : str) :
  Forall (fun c => isspace c = true) gap ->
  forall rest : str, split_from [] (gap ++ rest) = split_from [] rest.
Proof.
  induction 1 as [| c t Hc _ IH]; intros rest; [reflexivity |].
  cbn [app split_from]. rewrite Hc. apply IH.
Qed.

(** The fields of a line made of two words and a run of blanks between
    them. *)
Lemma split_two_words (word gap number : str) :
  word <> [] -> Forall (fun c => isspace c = false) word ->
  gap <> [] -> Forall (fun c => isspace c = true) gap ->
  number <> [] -> Forall (fun c => isspace c = false) number ->
  split (word ++ gap ++ number) = [word; number].
Proof.
  intros Hw Pw Hg Pg Hn Pn. unfold split.
  rewrite (split_from_word word Pw), app_nil_r.
  destruct gap as [| c g]; [contradiction |].
  inversion Pg as [| ? ? Hc Pg']; subst.
  cbn [app split_from]. rewrite Hc.
  destruct (rev word) eqn:E.
  - apply (f_equal (@rev ascii)) in E. rewrite rev_involutive in E.
    contradiction.
  - rewrite <- E, rev_involutive. f_equal.
    rewrite (split_from_blanks g Pg').
    rewrite <- (app_nil_r number) at 1.
    rewrite (split_from_word number Pn), app_nil_r. cbn [split_from].
    destruct (rev number) eqn:E'.
    + apply (f_equal (@rev ascii)) in E'. rewrite rev_involutive in E'.
      contradiction.
    + rewrite <- E', rev_involutive. reflexivity.
Qed.

Lemma join_with_last_char (sep : str) (P : ascii -> Prop) (lines : list str) :
  lines <> [] ->
  Forall (fun line => exists u c, line = u ++ [c] /\ P c) lines ->
  exists u c, join_with sep lines = u ++ [c] /\ P c.
Proof.
  intros Hne Hall. induction Hall as [| p rest [u [c [Ep Hc]]] Hrest IH];
    [contradiction |].
  destruct rest as [| q rest'].
  - exists u, c. split; [exact Ep | exact Hc].
  - destruct IH as [u' [c' [E Hc']]]; [discriminate |].
    exists (p ++ sep ++ u'), c'. split; [| exact Hc'].
    rewrite join_with_cons, <- !app_assoc. do 2 f_equal. exact E.
Qed.

Lemma written_line_shape (w : str * str * Instruction) :
  well_written w ->
  (exists c t, written_line w = c :: t /\ isspace c = false)
  /\ (exists u c, written_line w = u ++ [c] /\ isspace c = false)
  /\ Forall (fun c => linebreak c = false) (written_line w)
  /\ split (written_line w)
     = [fst (fst w); str_int (value (snd w))].
Proof.
  destruct w as [[word gap] i]. intros [Hup [Hg [Pg _]]].
  cbn [written_line fst snd].
  destruct (spelling_plain word _ Hup) as [Hw Pw].
  destruct (str_int_plain (value i)) as [Hn Pn].
  split; [| split; [| split]].
  - destruct word as [| c t]; [contradiction |].
    exists c, (t ++ gap ++ str_int (value i)).
    split; [reflexivity | inversion Pw; assumption].
  - destruct (exists_last Hn) as [u [c E]].
    exists (word ++ gap ++ u), c. split.
    + rewrite E, <- !app_assoc. reflexivity.
    + rewrite E in Pn. apply Forall_app in Pn. destruct Pn as [_ Pn].
      inversion Pn; assumption.
  - apply Forall_app. split; [| apply Forall_app; split].
    + eapply Forall_impl; [| exact Pw]. apply linebreak_isspace.
    + eapply Forall_impl; [| exact Pg]. intros c Hc; apply Hc.
    + eapply Forall_impl; [| exact Pn]. apply linebreak_isspace.
  - apply split_two_words; try assumption.
    eapply Forall_impl; [| exact Pg]. intros c Hc; apply Hc.
Qed.

(** X25. Writing and reading back: instructions written one per line, each
    as a spelling of its name in any mix of upper and lower case, a run of
    blanks and its value in decimal, of at most 4300 digits and negative
    values among them, are read by day 2's [parse_input] as those
    instructions, in order. *)
Theorem day2_parse_input_round_trip (written : list (str * str * Instruction)) :
  Forall well_written written ->
  Day2Input.parse_input (join_with [LF] (map written_line written))
  = inr (map snd written).
Proof.
  intros Hall. unfold Day2Input.parse_input.
  assert (Hstrip : strip isspace (join_with [LF] (map written_line written))
                   = join_with [LF] (map written_line written)).
  { destruct written as [| w rest]; [reflexivity |].
    destruct (join_with_last_char [LF] (fun c => isspace c = false)
                (map written_line (w :: rest))) as [u [c' [Eu Hc']]].
    - discriminate.
    - apply Forall_map. eapply Forall_impl; [| exact Hall].
      intros x Hx. apply written_line_shape, Hx.
    - inversion Hall as [| ? ? Hw _]; subst.
      destruct (written_line_shape w Hw) as [[c [t [E Hc]]] _].
      cbn [map] in Eu |- *. unfold str in *. rewrite E in Eu |- *.
      destruct (join_with_head [LF] ((c :: t) :: map written_line rest)
                  c t (map written_line rest) eq_refl) as [t' Et].
      apply (strip_between isspace _ t' c c'); try assumption.
      exists u. exact Eu. }
  rewrite Hstrip, splitlines_join_with.
  - rewrite map_map. clear Hstrip.
    induction Hall as [| w rest Hw _ IH]; [reflexivity |].
    cbn [map Day2Input.instructions_of].
    destruct (written_line_shape w Hw) as [_ [_ [_ ->]]].
    destruct w as [[word gap] i]. destruct Hw as [Hup [_ [_ Hlen]]].
    cbn [fst snd Day2Input.instruction_of].
    rewrite Hup, member_member_name, (int_str_int_short _ Hlen), IH.
    destruct i; reflexivity.
  - apply Forall_map. eapply Forall_impl; [| exact Hall].
    intros w Hw.
    destruct (written_line_shape w Hw) as [[c [t [E _]]] [_ [Hlb _]]].
    split; [rewrite E; discriminate | exact Hlb].
Qed.

Lemma day2_parse_input_round_trip_witness :
  Forall well_written
    [(lit "Forward", lit " ", mkInstruction FORWARD 5);
     (lit "dOWN", lit "   ", mkInstruction DOWN (-3))]
  /\ Day2Input.parse_input (lit "Forward 5" ++ LF :: lit "dOWN   -3")
     = inr [mkInstruction FORWARD 5; mkInstruction DOWN (-3)].
Proof.
  assert (H : Forall well_written
                [(lit "Forward", lit " ", mkInstruction FORWARD 5);
                 (lit "dOWN", lit "   ", mkInstruction DOWN (-3))]).
  { repeat constructor; discriminate. }
  split; [exact H |].
  exact (day2_parse_input_round_trip _ H).
Defined.

(** * White space around the input *)

Lemma lstrip_app_space (space : ascii -> bool) (a s : str) :
  Forall (fun c => space c = true) a ->
  lstrip space (a ++ s) = lstrip space s.
Proof. induction 1 as [| c t Hc _ IH]; simpl; [| rewrite Hc]; auto. Qed.

Lemma lstrip_app (space : ascii -> bool) (s b : str) :
  lstrip space (s ++ b)
  = match lstrip space s with
    | [] => lstrip space b
    | _ => lstrip space s ++ b
    end.
Proof.
  induction s as [| c t IH]; [reflexivity |].
  cbn [app lstrip]. destruct (space c); [exact IH | reflexivity].
Qed.

Lemma rstrip_app_space (space : ascii -> bool) (s b : str) :
  Forall (fun c => space c = true) b ->
  rstrip space (s ++ b) = rstrip space s.
Proof.
  intros Hb. unfold rstrip. rewrite rev_app_distr.
  rewrite lstrip_app_space by (apply Forall_rev; exact Hb). reflexivity.
Qed.

(** White space before and after a text does not change what [strip]
    leaves of it. *)
Lemma strip_pad (space : ascii -> bool) (a s b : str) :
  Forall (fun c => space c = true) a ->
  Forall (fun c => space c = true) b ->
  strip space (a ++ s ++ b) = strip space s.
Proof.
  intros Ha Hb. unfold strip.
  rewrite (lstrip_app_space space a _ Ha), lstrip_app.
  destruct (lstrip space s) as [| c t] eqn:E.
  - rewrite (lstrip_all_space space b Hb). reflexivity.
  - apply rstrip_app_space, Hb.
Qed.

(** X26. White space before and after the whole input, blank lines among
    it, changes nothing for the [parse_input] of day 2 and of day 3, which
    strip the input first. *)
Theorem parse_input_ignores_outer_space (before input_string after : str) :
  Forall (fun c => isspace c = true) before ->
  Forall (fun c => isspace c = true) after ->
  parse_input (before ++ input_string ++ after) = parse_input input_string
  /\ Day2Input.parse_input (before ++ input_string ++ after)
     = Day2Input.parse_input input_string.
Proof.
  intros Ha Hb. unfold parse_input, Day2Input.parse_input.
  rewrite (strip_pad isspace before input_string after Ha Hb).
  split; reflexivity.
Qed.

Lemma parse_input_ignores_outer_space_witness :
  (Forall (fun c => isspace c = true) (LF :: lit "    ")
   /\ Forall (fun c => isspace c = true) (LF :: lit "  "))
  /\ parse_input ((LF :: lit "    ") ++ lit "101" ++ (LF :: lit "  "))
     = parse_input (lit "101").
Proof.
  assert (Ha : Forall (fun c => isspace c = true) (LF :: lit "    "))
    by (repeat constructor).
  assert (Hb : Forall (fun c => isspace c = true) (LF :: lit "  "))
    by (repeat constructor).
  split; [split; assumption |].
  exact (proj1 (parse_input_ignores_outer_space _ (lit "101") _ Ha Hb)).
Defined.

(** * Blanks around the lines *)

Lemma blanks_space (s : str) : blanks s -> Forall (fun c => isspace c = true) s.
Proof. intros H. eapply Forall_impl; [| exact H]. intros c Hc; apply Hc. Qed.

Lemma blanks_no_linebreak (s : str) :
  blanks s -> Forall (fun c => linebreak c = false) s.
Proof. intros H. eapply Forall_impl; [| exact H]. intros c Hc; apply Hc. Qed.

Lemma join_with_app_head (sep a p : str) (rest : list str) :
  join_with sep ((a ++ p) :: rest) = a ++ join_with sep (p :: rest).
Proof.
  destruct rest as [| q rest']; [reflexivity |].
  rewrite !join_with_cons, <- app_assoc. reflexivity.
Qed.

Lemma join_with_app_last (sep p b : str) (init : list str) :
  join_with sep (init ++ [p ++ b]) = join_with sep (init ++ [p]) ++ b.
Proof.
  induction init as [| x init' IH]; [reflexivity |].
  destruct init' as [| y init''].
  - cbn [app]. rewrite !join_with_cons. cbn [join_with].
    rewrite <- !app_assoc. reflexivity.
  - cbn [app] in *. rewrite !join_with_cons, IH, <- !app_assoc.
    reflexivity.
Qed.

Lemma padded_solid_line (line core : str) :
  padded line core -> solid core ->
  line <> [] /\ Forall (fun c => linebreak c = false) line.
Proof.
  intros [pre [post [Hpre [Hpost ->]]]] [[c [t [-> _]]] [_ Hlb]]. split.
  - destruct pre; discriminate.
  - repeat (apply Forall_app; split);
      [apply blanks_no_linebreak, Hpre | exact Hlb
       | apply blanks_no_linebreak, Hpost].
Qed.

(** What [strip] leaves of padded lines joined by line feeds: the blanks
    before the first core and after the last one are gone, and the lines
    are still the cores between blanks. *)
Lemma strip_padded_lines (lines cores : list str) :
  Forall2 padded lines cores -> Forall solid cores ->
  exists lines' : list str,
    Forall2 padded lines' cores
    /\ strip isspace (join_with [LF] lines) = join_with [LF] lines'.
Proof.
  intros HF Hsolid.
  destruct HF as [| l1 c1 ltail ctail [pre [post [Hpre [Hpost E1]]]] Htail].
  - exists []. split; [constructor | reflexivity].
  - (* the front *)
    set (lines2 := (c1 ++ post) :: ltail).
    assert (HF2 : Forall2 padded lines2 (c1 :: ctail)).
    { constructor; [| exact Htail].
      exists [], post. repeat split; [constructor | exact Hpost]. }
    assert (Hfront : lstrip isspace (join_with [LF] (l1 :: ltail))
                     = join_with [LF] lines2).
    { rewrite E1, join_with_app_head.
      rewrite lstrip_app_space by (apply blanks_space, Hpre).
      inversion Hsolid as [| ? ? [[c [t [Ec Hc]]] _] _]; subst.
      unfold lines2. cbn [app].
      destruct (join_with_head [LF] ((c :: t ++ post) :: ltail) c
                  (t ++ post) ltail eq_refl) as [t' Et].
      unfold str in *. rewrite Et. cbn [lstrip]. rewrite Hc. reflexivity. }
    (* the back *)
    destruct (@exists_last _ lines2 ltac:(discriminate)) as [init [last Elast]].
    rewrite Elast in HF2.
    apply Forall2_app_inv_l in HF2.
    destruct HF2 as [cinit [clast' [Hinit [Hlast Ecores]]]].
    inversion Hlast as [| ? clast ? ? [pre' [post' [Hpre' [Hpost' El]]]] Hnil];
      subst.
    inversion Hnil; subst.
    assert (Hsl : solid clast).
    { rewrite Ecores in Hsolid. apply Forall_app in Hsolid.
      destruct Hsolid as [_ Hs]. inversion Hs; assumption. }
    exists (init ++ [pre' ++ clast]). split.
    + rewrite Ecores. apply Forall2_app; [exact Hinit |].
      constructor; [| constructor].
      exists pre', []. rewrite app_nil_r.
      repeat split; [exact Hpre' | constructor].
    + unfold strip. rewrite Hfront, Elast.
      replace (pre' ++ clast ++ post') with ((pre' ++ clast) ++ post')
        by (rewrite <- app_assoc; reflexivity).
      rewrite join_with_app_last.
      rewrite rstrip_app_space by (apply blanks_space, Hpost').
      destruct Hsl as [_ [[u [c [Eu Hc]]] _]].
      rewrite Eu.
      replace (pre' ++ u ++ [c]) with ((pre' ++ u) ++ [c])
        by (rewrite <- app_assoc; reflexivity).
      unfold str in *. rewrite !join_with_app_last. apply rstrip_last, Hc.
Qed.

Lemma split_from_all_space (post : str) :
  Forall (fun c => isspace c = true) post ->
  forall acc : str, split_from acc post = split_from acc [].
Proof.
  destruct 1 as [| c t Hc Ht]; intros acc; [reflexivity |].
  cbn [split_from]. rewrite Hc.
  pose proof (split_from_blanks t Ht []) as E. rewrite app_nil_r in E.
  rewrite E. destruct acc; reflexivity.
Qed.

Lemma split_from_app_space (s post : str) :
  Forall (fun c => isspace c = true) post ->
  forall acc : str, split_from acc (s ++ post) = split_from acc s.
Proof.
  intros Hpost. induction s as [| c t IH]; intros acc.
  - apply split_from_all_space, Hpost.
  - cbn [app split_from]. destruct (isspace c).
    + destruct acc; rewrite IH; reflexivity.
    + apply IH.
Qed.

Lemma split_padded (line core : str) :
  padded line core -> split line = split core.
Proof.
  intros [pre [post [Hpre [Hpost ->]]]]. unfold split.
  rewrite (split_from_blanks pre (blanks_space pre Hpre)).
  apply split_from_app_space, blanks_space, Hpost.
Qed.

Lemma strip_padded (line core : str) :
  padded line core -> strip isspace line = strip isspace core.
Proof.
  intros [pre [post [Hpre [Hpost ->]]]].
  apply strip_pad; apply blanks_space; assumption.
Qed.

Lemma padded_refl (cores : list str) : Forall2 padded cores cores.
Proof.
  induction cores as [| c t IH]; constructor; [| exact IH].
  exists [], []. rewrite app_nil_r. repeat split; constructor.
Qed.

Lemma splitlines_padded (lines cores : list str) :
  Forall2 padded lines cores -> Forall solid cores ->
  splitlines (join_with [LF] lines) = lines.
Proof.
  intros HF Hs. apply splitlines_join_with.
  induction HF as [| l c lt ct Hp _ IH]; [constructor |].
  inversion Hs; subst. constructor; [| apply IH; assumption].
  apply (padded_solid_line l c); assumption.
Qed.

Lemma read_padded (lines cores : list str) :
  Forall2 padded lines cores ->
  comprehension (fun line => from_str (strip isspace line)) lines
  = comprehension (fun line => from_str (strip isspace line)) cores.
Proof.
  induction 1 as [| x c xt ct Hp _ IH]; [reflexivity |].
  cbn [comprehension]. rewrite (strip_padded x c Hp), IH. reflexivity.
Qed.

Lemma map_split_padded (lines cores : list str) :
  Forall2 padded lines cores -> map split lines = map split cores.
Proof.
  induction 1 as [| x c xt ct Hp _ IH]; [reflexivity |].
  cbn [map]. rewrite (split_padded x c Hp), IH. reflexivity.
Qed.

(** X27. Blanks before and after what is written on each line change
    nothing for the [parse_input] of day 2 and of day 3: lines that start
    and end with a character that is not white space are read the same
    when each of them is indented or followed by blanks. *)
Theorem parse_input_ignores_line_padding (lines cores : list str) :
  Forall2 padded lines cores -> Forall solid cores ->
  parse_input (join_with [LF] lines) = parse_input (join_with [LF] cores)
  /\ Day2Input.parse_input (join_with [LF] lines)
     = Day2Input.parse_input (join_with [LF] cores).
Proof.
  intros HF Hs.
  destruct (strip_padded_lines lines cores HF Hs) as [l1 [H1 E1]].
  destruct (strip_padded_lines cores cores (padded_refl cores) Hs)
    as [l2 [H2 E2]].
  unfold parse_input, Day2Input.parse_input.
  rewrite E1, E2, (splitlines_padded l1 cores H1 Hs),
    (splitlines_padded l2 cores H2 Hs).
  rewrite (read_padded l1 cores H1), (read_padded l2 cores H2),
    (map_split_padded l1 cores H1), (map_split_padded l2 cores H2).
  split; reflexivity.
Qed.

Lemma parse_input_ignores_line_padding_witness :
  (Forall2 padded [lit "    10  "; lit "  01"] [lit "10"; lit "01"]
   /\ Forall solid [lit "10"; lit "01"])
  /\ parse_input (lit "    10  " ++ LF :: lit "  01")
     = parse_input (lit "10" ++ LF :: lit "01").
Proof.
  assert (HF : Forall2 padded [lit "    10  "; lit "  01"]
                 [lit "10"; lit "01"]).
  { constructor; [| constructor; [| constructor]].
    - exists (lit "    "), (lit "  ").
      repeat split; repeat constructor.
    - exists (lit "  "), []. repeat split; repeat constructor. }
  assert (Hs : Forall solid [lit "10"; lit "01"]).
  { constructor; [| constructor; [| constructor]].
    - split; [exists "1", (lit "0") | split; [exists (lit "1"), "0" |]];
        repeat constructor.
    - split; [exists "0", (lit "1") | split; [exists (lit "0"), "1" |]];
        repeat constructor. }
  split; [split; assumption |].
  exact (proj1 (parse_input_ignores_line_padding _ _ HF Hs)).
Defined.
